(** * docu-chat-ai: the retrieval pipeline of the backend, shallowly embedded

    Sources modelled:
    - [src/backend/src/services/embeddingService.js]: [splitTextIntoChunks],
      [decode], [generateEmbedding], [processDocument], [findRelevantDocuments];
    - [src/backend/src/models/Chunk.js]: [Chunk.findSimilar];
    - [src/backend/src/services/chatService.js]: [extractCitations],
      [processMessage] and the message store its [this.saveMessage] writes.

    External collaborators (the BPE tokenizer of [gpt-tokenizer], the cosine
    distance operator [<=>] of pgvector, OpenAI, [Math.random], the clock)
    are Section variables or explicit oracle arguments. *)

From Stdlib Require Import ZArith QArith Qround Ascii String Sorting.Permutation
  Sorting.Sorted PrimFloat SpecFloat FloatOps.
From stdpp Require Import base list sorting.
Import ListNotations.
Open Scope string_scope.
Open Scope Z_scope.

(* ================================================================= *)
(** ** JavaScript helpers *)

Module Js.

(** [\s] of JS regular expressions, restricted to ASCII:
    tab, line feed, vertical tab, form feed, carriage return, space.
    [String.prototype.trim] strips the same characters. *)
Definition is_ws (c : ascii) : bool :=
  existsb (Nat.eqb (nat_of_ascii c)) [9; 10; 11; 12; 13; 32]%nat.

Definition is_nl (c : ascii) : bool := Nat.eqb (nat_of_ascii c) 10%nat.
Definition is_ff (c : ascii) : bool := Nat.eqb (nat_of_ascii c) 12%nat.

(** [!s.trim()]: the string has no character outside [\s]. *)
Fixpoint is_blank (s : string) : bool :=
  match s with
  | EmptyString => true
  | String c r => is_ws c && is_blank r
  end.

(** [s.slice(a, b)] on an array, negative indices counting from the end. *)
Definition slice {A} (l : list A) (a b : Z) : list A :=
  let len := Z.of_nat (length l) in
  let norm x := if x <? 0 then Z.max (len + x) 0 else Z.min x len in
  let a' := norm a in
  let b' := norm b in
  firstn (Z.to_nat (b' - a')) (skipn (Z.to_nat a') l).

(** Decimal rendering of an integral JS number, as [Array.prototype.join]
    does for each element. *)
Fixpoint digits (fuel : nat) (n : Z) (acc : string) : string :=
  match fuel with
  | O => acc
  | S f =>
      let d := ascii_of_nat (48 + Z.to_nat (n mod 10))%nat in
      if n <? 10 then String d acc else digits f (n / 10) (String d acc)
  end.

Definition number_to_string (n : Z) : string :=
  let m := Z.abs n in
  let s := digits (S (Z.to_nat (Z.log2 m))) m "" in
  if n <? 0 then "-" ++ s else s.

(** [arr.join(sep)] *)
Fixpoint join (sep : string) (l : list string) : string :=
  match l with
  | [] => ""
  | [x] => x
  | x :: r => x ++ sep ++ join sep r
  end.

End Js.

(* ================================================================= *)
(** ** Chunker: [splitTextIntoChunks] and [decode] *)

Module Chunker.
Import Js.

(** The page-break regular expression [/\f|\n\s*\n\s*\n/], matched at the
    head of a string.  The first alternative consumes one form feed.  The
    second needs a line feed here and two more inside the maximal run of
    [\s] that starts here; the greedy [\s*] make the match end right after
    the last line feed of that run.  The result is what follows the match. *)
Fixpoint ws_run (s : string) : string * string :=
  match s with
  | String c r =>
      if is_ws c then let '(a, b) := ws_run r in (String c a, b) else ("", s)
  | EmptyString => ("", "")
  end.

Fixpoint count_nl (s : string) : nat :=
  match s with
  | EmptyString => 0%nat
  | String c r => ((if is_nl c then 1 else 0) + count_nl r)%nat
  end.

(** The part of a whitespace run after its last line feed. *)
Fixpoint after_last_nl (s : string) : string :=
  match s with
  | EmptyString => ""
  | String c r => if is_nl c && Nat.ltb 0%nat (count_nl r) then after_last_nl r
                  else if is_nl c then r
                  else after_last_nl r
  end.

Definition sep_match (s : string) : option string :=
  match s with
  | EmptyString => None
  | String c r =>
      if is_ff c then Some r
      else if is_nl c then
        let '(run, rest) := ws_run s in
        if Nat.leb 3%nat (count_nl run) then Some (after_last_nl run ++ rest) else None
      else None
  end.

(** [text.split(/\f|\n\s*\n\s*\n/)]: the separator never matches the empty
    string, so the text is cut at each leftmost match; [""] gives [[""]].
    Each step consumes at least one character, so [length text] bounds the
    number of steps. *)
Fixpoint split_go (fuel : nat) (cur s : string) : list string :=
  match fuel with
  | O => [cur ++ s]
  | S f =>
      match s with
      | EmptyString => [cur]
      | String c r =>
          match sep_match s with
          | Some rest => cur :: split_go f "" rest
          | None => split_go f (cur ++ String c "") r
          end
      end
  end.

Definition split_pages (text : string) : list string :=
  split_go (S (String.length text)) "" text.

(** [decode(tokens)]: [tokens.join(' ').replace(/ ([.,;:!?])/g, '$1')].
    The tokens are the numbers returned by the tokenizer. *)
Definition is_punct (c : ascii) : bool :=
  existsb (Nat.eqb (nat_of_ascii c)) [46; 44; 59; 58; 33; 63]%nat.

Fixpoint replace_space_punct (s : string) : string :=
  match s with
  | EmptyString => EmptyString
  | String sp t =>
      match t with
      | String c r =>
          if Nat.eqb (nat_of_ascii sp) 32%nat && is_punct c
          then String c (replace_space_punct r)
          else String sp (replace_space_punct t)
      | EmptyString => String sp EmptyString
      end
  end.

Definition decode (tokens : list Z) : string :=
  replace_space_punct (join " " (map number_to_string tokens)).

Record chunk := mkChunk {
  text : string;
  page : Z;
  tokenCount : Z;
  startIndex : Z;
  endIndex : Z
}.

(** What a JS computation does: return a value, throw, or never return. *)
Inductive run (A : Type) := Returns (a : A) | Throws | Loops.
Arguments Returns {A} a.
Arguments Throws {A}.
Arguments Loops {A}.

Definition run_map {A B} (f : A -> B) (r : run A) : run B :=
  match r with Returns a => Returns (f a) | Throws => Throws | Loops => Loops end.

(** [Math.floor] of a double: an integer, or a non-finite value. *)
Inductive floor_value := FInt (z : Z) | FNaN | FPosInf | FNegInf.

Definition float_floor (x : float) : floor_value :=
  match Prim2SF x with
  | S754_zero _ => FInt 0
  | S754_infinity false => FPosInf
  | S754_infinity true => FNegInf
  | S754_nan => FNaN
  | S754_finite s m e =>
      let v := if s then Z.neg m else Z.pos m in
      FInt (if 0 <=? e then v * 2 ^ e else v / 2 ^ (- e))
  end.

(** An integer as a JS number (round to nearest, ties to even). *)
Definition Z_to_float (z : Z) : float := SF2Prim (binary_normalize prec emax z 0 false).

(** [Math.floor(targetChunkSize * overlap)], the product taken in doubles. *)
Definition overlapTokensOf (targetChunkSize : Z) (overlap : float) : floor_value :=
  float_floor (Z_to_float targetChunkSize * overlap)%float.

(** The [while] loop over one page.  [fuel = 0] stands for a loop that does
    not terminate (it happens when [targetChunkSize - overlapTokens <= 0]). *)
Fixpoint chunk_loop (fuel : nat) (tokens : list Z) (pageNo target ot start : Z)
  : option (list chunk) :=
  match fuel with
  | O => None
  | S f =>
      let len := Z.of_nat (length tokens) in
      if start <? len then
        let endTokenIndex := Z.min (start + target) len in
        let chunkTokens := slice tokens start endTokenIndex in
        let c := {| text := decode chunkTokens;
                    page := pageNo;
                    tokenCount := Z.of_nat (length chunkTokens);
                    startIndex := start;
                    endIndex := endTokenIndex - 1 |} in
        let start' := start + (target - ot) in
        if len <=? start' then Some [c]
        else option_map (cons c) (chunk_loop f tokens pageNo target ot start')
      else Some []
  end.

Section WithTokenizer.

(** [encode] of [gpt-tokenizer], an external BPE tokenizer; [None] when it
    throws (it refuses special tokens such as [<|endoftext|>]). *)
Variable encode : string -> option (list Z).

(** One page of [pages.forEach]: blank pages are skipped.  An integral
    [overlapTokens] runs the loop as written.  A NaN one makes [startIndex]
    NaN after the first chunk, and [-Infinity] makes it [+Infinity]: both
    leave the loop after its first chunk.  [+Infinity] makes [startIndex]
    [-Infinity], which stays below the token count forever. *)
Definition chunk_page (target : Z) (ot : floor_value) (pageText : string) (pageIndex : nat)
  : run (list chunk) :=
  if is_blank pageText then Returns []
  else
    match encode pageText with
    | None => Throws
    | Some tokens =>
        let len := Z.of_nat (length tokens) in
        let pageNo := Z.of_nat pageIndex + 1 in
        match ot with
        | FInt o =>
            match chunk_loop (S (length tokens)) tokens pageNo target o 0 with
            | Some cs => Returns cs
            | None => Loops
            end
        | FNaN | FNegInf =>
            if 0 <? len then
              let endTokenIndex := Z.min (0 + target) len in
              let chunkTokens := slice tokens 0 endTokenIndex in
              Returns [{| text := decode chunkTokens;
                          page := pageNo;
                          tokenCount := Z.of_nat (length chunkTokens);
                          startIndex := 0;
                          endIndex := endTokenIndex - 1 |}]
            else Returns []
        | FPosInf => if 0 <? len then Loops else Returns []
        end
    end.

Fixpoint pages_go (target : Z) (ot : floor_value) (pages : list string) (pageIndex : nat)
  : run (list chunk) :=
  match pages with
  | [] => Returns []
  | p :: ps =>
      match chunk_page target ot p pageIndex with
      | Returns cs => run_map (app cs) (pages_go target ot ps (S pageIndex))
      | Throws => Throws
      | Loops => Loops
      end
  end.

(** [splitTextIntoChunks(text, targetChunkSize, overlap)]. *)
Definition splitTextIntoChunks (text : string) (targetChunkSize : Z) (overlap : float)
  : run (list chunk) :=
  let ot := overlapTokensOf targetChunkSize overlap in
  pages_go targetChunkSize ot (split_pages text) 0.

End WithTokenizer.

(** [ragConfig.chunkSize] and [ragConfig.chunkOverlap]. *)
Definition chunkSize : Z := 800.
#[warning="-inexact-float"]
Definition chunkOverlap : float := 0.2%float.

(** A byte-level tokenizer (one token per character, its code), the
    degenerate BPE without merges; used only for concrete runs. *)
Definition char_encode (s : string) : list Z :=
  map (fun c => Z.of_nat (nat_of_ascii c)) (list_ascii_of_string s).

(** The text contains the special token [<|endoftext|>]. *)
Fixpoint has_special (s : string) : bool :=
  match s with
  | EmptyString => false
  | String _ r => String.prefix "<|endoftext|>" s || has_special r
  end.

(** [char_encode], throwing on special tokens as [encode] does. *)
Definition char_tokenizer (s : string) : option (list Z) :=
  if has_special s then None else Some (char_encode s).

(** Tokens shared by two chunks of one page: the overlap of their inclusive
    index ranges. *)
Definition token_overlap (c1 c2 : chunk) : Z :=
  Z.max 0 (Z.min (endIndex c1) (endIndex c2) - Z.max (startIndex c1) (startIndex c2) + 1).

End Chunker.

(* ================================================================= *)
(** ** Embedding generator: [generateEmbedding] *)

Module Embedding.

Definition vec := list float.

(** Why a call of the OpenAI client can reject. *)
Inductive api_error := Timeout | QuotaExceeded | ServerError.

(** What [openai.embeddings.create(...)] does: reject, or resolve to a
    response whose [data] is an array (or [undefined]) of items whose
    [embedding] field may be missing. *)
Inductive api_outcome :=
| ApiRejects (e : api_error)
| ApiResolves (data : option (list (option vec))).

(** A settled promise. *)
Inductive promise (A E : Type) :=
| Resolved (a : A)
| Rejected (e : E).
Arguments Resolved {A E} a.
Arguments Rejected {A E} e.

(** [embeddingConfig.dimensions] *)
Definition dimensions : nat := 1536.

(** The catch branch: [Array(dims).fill(0).map(() => Math.random() * 2 - 1)],
    then each value divided by the L2 norm.  [rnd i] is the [i]-th value
    drawn from [Math.random] in this call. *)
Definition fallback_embedding (dims : nat) (rnd : nat -> float) : vec :=
  let embedding := map (fun i => (rnd i * two - one)%float) (seq 0 dims) in
  let norm := sqrt (fold_left (fun sum v => (sum + v * v)%float) embedding zero) in
  map (fun v => (v / norm)%float) embedding.

(** [generateEmbedding(text)]: [response.data[0].embedding]; a rejection of
    the call, and the [TypeError] thrown when [data] or [data[0]] is
    missing, land in the catch block.  The promise resolves to [None] when
    it resolves to [undefined]. *)
Definition generateEmbedding (openai_embed : string -> api_outcome)
    (rnd : nat -> float) (text : string) : promise (option vec) api_error :=
  match openai_embed text with
  | ApiResolves (Some (item :: _)) => Resolved item
  | _ => Resolved (Some (fallback_embedding dimensions rnd))
  end.

End Embedding.

(* ================================================================= *)
(** ** Database rows *)

Module Db.
Import Embedding.

(** [Document.status] *)
Inductive status := Pending | Processing | Ready | Error.

Record document := mkDocument {
  doc_id : string;
  doc_title : string;
  doc_orgId : option string;
  doc_folderId : option string;
  doc_tags : list string;
  doc_status : status
}.

(** A row of the [Chunks] table. *)
Record chunkRow := mkChunkRow {
  ch_id : string;
  ch_documentId : string;
  ch_content : string;
  ch_page : option Z;
  ch_tokenCount : Z;
  ch_startIndex : Z;
  ch_endIndex : Z;
  ch_embedding : vec
}.

Record user := mkUser { user_id : string; user_orgId : option string }.

(** Tables in insertion order. *)
Record db := mkDb {
  users : list user;
  documents : list document;
  chunks : list chunkRow
}.

Definition find_document (d : db) (id : string) : option document :=
  List.find (fun x => String.eqb (doc_id x) id) (documents d).

Definition find_user (d : db) (id : string) : option user :=
  List.find (fun x => String.eqb (user_id x) id) (users d).

Definition set_status (d : db) (id : string) (s : status) : db :=
  {| users := users d;
     documents := map (fun x => if String.eqb (doc_id x) id
                                then {| doc_id := doc_id x; doc_title := doc_title x;
                                        doc_orgId := doc_orgId x; doc_folderId := doc_folderId x;
                                        doc_tags := doc_tags x; doc_status := s |}
                                else x) (documents d);
     chunks := chunks d |}.

Definition status_of (d : db) (id : string) : option status :=
  option_map doc_status (find_document d id).

(** JS truthiness of a string ([""] is falsy) and of an optional string
    ([null] is falsy). *)
Definition truthy (s : option string) : bool :=
  match s with Some x => negb (String.eqb x "") | None => false end.

Definition opt_eqb (a b : option string) : bool :=
  match a, b with
  | Some x, Some y => String.eqb x y
  | None, None => true
  | _, _ => false
  end.

End Db.

(* ================================================================= *)
(** ** Vector index: [Chunk.findSimilar] *)

Module Index.
Import Embedding Db.

(** A row of the query result: ["Chunks".*], ["documentTitle"] and
    ["similarity"]. *)
Record passage := mkPassage {
  p_chunk : chunkRow;
  p_documentTitle : string;
  p_similarity : Q
}.

Record search_options := mkSearchOptions {
  limit : Z;
  threshold : Q;
  documentIds : option (list string);
  orgId : option string
}.

(** Why PostgreSQL refuses the statement. *)
Inductive sql_error :=
| NegativeLimit   (* [LIMIT must not be negative] *)
| NotAVector.     (* the query embedding was not bound as a vector *)

(** [ORDER BY "similarity" DESC] *)
Definition by_similarity_desc (a b : passage) : Prop :=
  (p_similarity b <= p_similarity a)%Q.

(** The orders in which the database may return [rows] for
    [ORDER BY "similarity" DESC]: any ordering by similarity, ties in any
    order (the query has no further sort key). *)
Definition sql_order (rows L : list passage) : Prop :=
  Permutation L rows /\ Sorted by_similarity_desc L.

Section WithDistance.

(** pgvector's cosine distance [a <=> b], a double, as a rational. *)
Variable cosine_distance : vec -> vec -> Q.

(** [1 - ("Chunks"."embedding" <=> ?)] with the query embedding bound to
    the placeholder, in lowest terms; an undefined query embedding binds
    NULL, and NULL compares true with nothing. *)
Definition similarity (q : option vec) (e : vec) : option Q :=
  match q with
  | Some v => Some (Qred (1 - cosine_distance e v))
  | None => None
  end.

(** [FROM "Chunks" INNER JOIN "Documents" ... WHERE ...], in table order:
    the threshold test, [AND "documentId" IN (?)] when [documentIds] is a
    non-empty array, [AND "Documents"."orgId" = ?] when [orgId] is truthy. *)
Definition candidates (d : db) (q : option vec) (o : search_options) : list passage :=
  flat_map (fun c =>
    flat_map (fun doc =>
      if String.eqb (doc_id doc) (ch_documentId c) then
        match similarity q (ch_embedding c) with
        | Some s =>
            if Qle_bool (threshold o) s
               && match documentIds o with
                  | Some ((_ :: _) as ids) => existsb (String.eqb (ch_documentId c)) ids
                  | _ => true
                  end
               && (if truthy (orgId o) then opt_eqb (doc_orgId doc) (orgId o) else true)
            then [mkPassage c (doc_title doc) s]
            else []
        | None => []
        end
      else []) (documents d)) (chunks d).

(** [Chunk.findSimilar(embedding, options)].  Sequelize writes an array
    replacement as the comma-separated list of its elements, so an array
    embedding turns [<=> ?] into [<=> v1, v2, ...]: PostgreSQL refuses the
    statement (a syntax error for [[]], no operator [vector <=> numeric]
    otherwise) before any row or the [LIMIT] is looked at.  An [undefined]
    embedding is written [NULL], which matches no row.  With
    [type: QueryTypes.SELECT], [sequelize.query] resolves to the array of
    rows itself, so [const [results] = ...] binds its first row, or
    [undefined] when there is none; that is what is returned.  PostgreSQL
    rejects a negative [LIMIT]. *)
Definition findSimilar (d : db) (q : option vec) (o : search_options)
    (r : promise (option passage) sql_error) : Prop :=
  match q with
  | Some _ => r = Rejected NotAVector
  | None =>
      if limit o <? 0 then r = Rejected NegativeLimit
      else exists L, sql_order (candidates d q o) L /\
                     r = Resolved (head (firstn (Z.to_nat (limit o)) L))
  end.

End WithDistance.

End Index.

(* ================================================================= *)
(** ** Retriever: [findRelevantDocuments] *)

Module Retrieval.
Import Embedding Db Index.

Inductive retrieval_error :=
| LookupFailed          (* [User.findByPk] or [Document.findAll] rejects *)
| UserNotFound
| EmbeddingFailed (e : api_error)
| SearchFailed (e : sql_error).

(** The JS value the promise of [findRelevantDocuments] resolves to: an
    array (the early [return []]), or what [Chunk.findSimilar] returned. *)
Inductive rd_value :=
| RDArray (l : list passage)
| RDRow (p : passage)
| RDUndefined.

Record rd_options := mkRdOptions {
  folderId : option string;
  tags : list string;
  rd_limit : Z;
  rd_threshold : Q
}.

(** [Document.findAll({ where, attributes: ['id'] })].map(doc => doc.id) *)
Definition doc_ids_where (d : db) (P : document -> bool) : list string :=
  map doc_id (filter P (documents d)).

(** [tags: { [Op.overlap]: tagArray }] *)
Definition overlaps (a b : list string) : bool :=
  existsb (fun t => existsb (String.eqb t) b) a.

(** Scope resolution (lines 118-172): return [[]] early, or search with
    the options built. *)
Inductive scope := ShortCircuit | SearchWith (o : search_options).

Definition resolve_scope (d : db) (u : user) (o : rd_options) : scope :=
  let base := mkSearchOptions (rd_limit o) (rd_threshold o) None (user_orgId u) in
  let with_ids ids := mkSearchOptions (rd_limit o) (rd_threshold o) (Some ids) (user_orgId u) in
  let folderIds :=
    if truthy (folderId o)
    then Some (doc_ids_where d (fun doc => opt_eqb (doc_folderId doc) (folderId o)
                                          && opt_eqb (doc_orgId doc) (user_orgId u)))
    else None in
  match folderIds with
  | Some [] => ShortCircuit
  | _ =>
      match tags o with
      | [] => match folderIds with Some ids => SearchWith (with_ids ids) | None => SearchWith base end
      | tagArray =>
          let tagged := doc_ids_where d (fun doc =>
                          opt_eqb (doc_orgId doc) (user_orgId u)
                          && (if truthy (folderId o) then opt_eqb (doc_folderId doc) (folderId o) else true)
                          && overlaps (doc_tags doc) tagArray) in
          match tagged with
          | [] => ShortCircuit
          | _ =>
              match folderIds with
              | Some ids =>
                  match filter (fun id => existsb (String.eqb id) tagged) ids with
                  | [] => ShortCircuit
                  | ids' => SearchWith (with_ids ids')
                  end
              | None => SearchWith (with_ids tagged)
              end
          end
      end
  end.

Definition of_search (r : promise (option passage) sql_error) : promise rd_value retrieval_error :=
  match r with
  | Resolved (Some p) => Resolved (RDRow p)
  | Resolved None => Resolved RDUndefined
  | Rejected e => Rejected (SearchFailed e)
  end.

(** [findRelevantDocuments(query, userId, options)].  The [User] and
    [Document] models are not part of the sources, so the queries of
    [User.findByPk] and [Document.findAll] may reject at any time: the
    first disjunct. *)
Definition findRelevantDocuments (cosine_distance : vec -> vec -> Q)
    (openai_embed : string -> api_outcome) (rnd : nat -> float)
    (d : db) (query userId : string) (o : rd_options)
    (r : promise rd_value retrieval_error) : Prop :=
  r = Rejected LookupFailed \/
  match find_user d userId with
  | None => r = Rejected UserNotFound
  | Some u =>
      match generateEmbedding openai_embed rnd query with
      | Rejected e => r = Rejected (EmbeddingFailed e)
      | Resolved qe =>
          match resolve_scope d u o with
          | ShortCircuit => r = Resolved (RDArray [])
          | SearchWith so =>
              exists res, findSimilar cosine_distance d qe so res /\ r = of_search res
          end
      end
  end.

(** The passages a value of [findRelevantDocuments] carries. *)
Definition rd_passages (v : rd_value) : list passage :=
  match v with
  | RDArray l => l
  | RDRow p => [p]
  | RDUndefined => []
  end.

End Retrieval.

(* ================================================================= *)
(** ** Ingestion: [processDocument] *)

Module Ingestion.
Import Embedding Db Chunker.

Inductive ingest_error :=
| DocumentNotFound
| EncodeThrew            (* the tokenizer refuses the text *)
| EmbeddingRejected (e : api_error)
| NullEmbedding          (* [embedding] is [allowNull: false] *)
| InsertFailed
| StatusWriteFailed.

Inductive outcome := Done | Threw (e : ingest_error) | Diverges.

(** What the collaborators do during one run. *)
Record env := mkEnv {
  openai_embed : nat -> string -> api_outcome;  (* the embedding call of chunk [i] *)
  random : nat -> nat -> float;                 (* [Math.random] draws in that call *)
  create_ok : nat -> bool;
    (* [Chunk.create] of chunk [i] succeeds; the database refuses, among
       others, an embedding that is not 1536 finite numbers *)
  uuid : nat -> string;                         (* [uuidv4()] of chunk [i] *)
  status_write_ok : status -> bool              (* [document.update({ status })] succeeds *)
}.

(** The task [chunks.map(async (chunk, index) => ...)] runs for one chunk:
    the row it inserts, or its rejection. *)
Definition chunk_task (e : env) (documentId : string) (index : nat) (c : chunk)
  : promise chunkRow ingest_error :=
  match generateEmbedding (openai_embed e index) (random e index) (text c) with
  | Rejected err => Rejected (EmbeddingRejected err)
  | Resolved None => Rejected NullEmbedding
  | Resolved (Some embedding) =>
      if create_ok e index then
        Resolved {| ch_id := uuid e index; ch_documentId := documentId;
                    ch_content := text c; ch_page := Some (page c);
                    ch_tokenCount := tokenCount c; ch_startIndex := startIndex c;
                    ch_endIndex := endIndex c; ch_embedding := embedding |}
      else Rejected InsertFailed
  end.

Definition resolved_rows (rs : list (promise chunkRow ingest_error)) : list chunkRow :=
  flat_map (fun r => match r with Resolved row => [row] | Rejected _ => [] end) rs.

Definition first_rejection (rs : list (promise chunkRow ingest_error)) : option ingest_error :=
  List.fold_right (fun r acc => match r with Rejected err => Some err | Resolved _ => acc end) None rs.

Definition add_chunks (d : db) (rows : list chunkRow) : db :=
  {| users := users d; documents := documents d; chunks := app (chunks d) rows |}.

Section WithTokenizer.

Variable encode : string -> option (list Z).

(** The catch block: fetch the document again and write [status: 'error']
    (a failure of that write is only logged), then rethrow. *)
Definition on_error (e : env) (d : db) (documentId : string) (err : ingest_error)
  : db * outcome :=
  match find_document d documentId with
  | Some _ =>
      if status_write_ok e Error then (set_status d documentId Error, Threw err)
      else (d, Threw err)
  | None => (d, Threw err)
  end.

(** [processDocument(documentId, text)].  The chunk tasks run concurrently
    and [Promise.all] rejects at the first rejection, after which the catch
    block runs while the other tasks go on; every task still inserts its row
    or fails, and only this function writes the status, so the final state
    is the one computed here task after task.  Of several rejections the one
    of the lowest index stands for the first one in time. *)
Definition processDocument (e : env) (d : db) (documentId text : string) : db * outcome :=
  match find_document d documentId with
  | None => on_error e d documentId DocumentNotFound
  | Some _ =>
      if negb (status_write_ok e Processing) then on_error e d documentId StatusWriteFailed
      else
        let d1 := set_status d documentId Processing in
        match splitTextIntoChunks encode text chunkSize chunkOverlap with
        | Throws => on_error e d1 documentId EncodeThrew
        | Loops => (d1, Diverges)
        | Returns cs =>
            let results := imap (chunk_task e documentId) cs in
            let d2 := add_chunks d1 (resolved_rows results) in
            match first_rejection results with
            | Some err => on_error e d2 documentId err
            | None =>
                if status_write_ok e Ready then (set_status d2 documentId Ready, Done)
                else on_error e d2 documentId StatusWriteFailed
            end
        end
  end.

End WithTokenizer.

End Ingestion.

(* ================================================================= *)
(** ** Chat: [extractCitations], [generatePrompt], [processMessage] *)

Module Chat.
Import Embedding Db Index Retrieval.

Record citation := mkCitation {
  chunkId : string;
  documentId : string;
  documentTitle : string;
  c_page : Z;
  c_similarity : Q
}.

(** Digits of [\d+] and their value, as [parseInt] gives it.  [parseInt]
    rounds past 2^53, which never moves a value across the bound
    [relevantDocuments.length] tested next, so exact integers decide the
    same way. *)
Definition is_digit (c : ascii) : bool :=
  Nat.leb 48 (nat_of_ascii c) && Nat.leb (nat_of_ascii c) 57.

Fixpoint take_digits (s : string) : string * string :=
  match s with
  | String c r =>
      if is_digit c then let '(a, b) := take_digits r in (String c a, b) else ("", s)
  | EmptyString => ("", "")
  end.

Fixpoint parse_digits (s : string) (acc : Z) : Z :=
  match s with
  | EmptyString => acc
  | String c r => parse_digits r (10 * acc + (Z.of_nat (nat_of_ascii c) - 48))
  end.

(** [/\[Document (\d+):/] matched at the head of [s]: the captured digits. *)
Definition match_at (s : string) : option string :=
  if String.prefix "[Document " s then
    let '(ds, after) := take_digits (substring 10 (String.length s - 10) s) in
    match ds, after with
    | String _ _, String c _ => if Nat.eqb (nat_of_ascii c) 58 then Some ds else None
    | _, _ => None
    end
  else None.

(** The captures of the [exec] loop of the global regex, in order.  A match
    contains no ["["] after its first character, so restarting the search
    one character later instead of at [lastIndex] finds the same matches. *)
Fixpoint citation_refs (s : string) : list string :=
  match s with
  | EmptyString => []
  | String _ r =>
      app (match match_at s with Some ds => [ds] | None => [] end) (citation_refs r)
  end.

(** [{ chunkId: document.id, ..., documentTitle: document.documentTitle ||
    'Untitled', page: document.page || 1, ... }] *)
Definition citation_of (p : passage) : citation :=
  {| chunkId := ch_id (p_chunk p);
     documentId := ch_documentId (p_chunk p);
     documentTitle := if String.eqb (p_documentTitle p) "" then "Untitled" else p_documentTitle p;
     c_page := match ch_page (p_chunk p) with
               | Some n => if n =? 0 then 1 else n
               | None => 1
               end;
     c_similarity := p_similarity p |}.

(** One iteration of the [while] loop. *)
Definition extract_step (relevantDocuments : list passage) (citations : list citation)
    (ds : string) : list citation :=
  let documentIndex := parse_digits ds 0 - 1 in
  if (0 <=? documentIndex) && (documentIndex <? Z.of_nat (length relevantDocuments)) then
    match nth_error relevantDocuments (Z.to_nat documentIndex) with
    | Some document =>
        if existsb (fun c => String.eqb (chunkId c) (ch_id (p_chunk document))) citations
        then citations
        else app citations [citation_of document]
    | None => citations
    end
  else citations.

(** [extractCitations(response, relevantDocuments)] on an array. *)
Definition extractCitations (response : string) (relevantDocuments : list passage)
  : list citation :=
  fold_left (extract_step relevantDocuments) (citation_refs response) [].

(** The same on whatever [findRelevantDocuments] returned: on a row
    object [.length] is [undefined] and every bound test is false; on
    [undefined] the first match throws a [TypeError] ([None]). *)
Definition extractCitations_js (response : string) (rd : rd_value) : option (list citation) :=
  match rd with
  | RDArray l => Some (extractCitations response l)
  | RDRow _ => Some []
  | RDUndefined => match citation_refs response with [] => Some [] | _ => None end
  end.

Record chat_msg := mkChatMsg { role : string; content : string }.

Definition nl : string := String (ascii_of_nat 10) EmptyString.

Section WithSystemPrompt.

(** [ragConfig.systemPrompt] *)
Variable systemPrompt : string.

Definition format_chunk (index : nat) (p : passage) : string :=
  "[Document " ++ Js.number_to_string (Z.of_nat index + 1) ++ ": "
  ++ (if String.eqb (p_documentTitle p) "" then "Untitled" else p_documentTitle p)
  ++ ", Page " ++ match ch_page (p_chunk p) with
                  | Some n => if n =? 0 then "N/A" else Js.number_to_string n
                  | None => "N/A"
                  end
  ++ "]" ++ nl ++ ch_content (p_chunk p) ++ nl.

(** [generatePrompt(query, chunks)]: the system and the user message;
    [None] for the [TypeError] of [chunks.map] on a row object. *)
Definition generatePrompt (query : string) (chunks : rd_value) : option (chat_msg * chat_msg) :=
  let sys := mkChatMsg "system" systemPrompt in
  let empty := Some (sys, mkChatMsg "user" ("Question: " ++ query ++ nl ++ nl
                         ++ "Document excerpts: [No relevant documents found]")) in
  match chunks with
  | RDUndefined | RDArray [] => empty
  | RDRow _ => None
  | RDArray l =>
      let formattedChunks := Js.join nl (imap format_chunk l) in
      Some (sys, mkChatMsg "user" ("Question: " ++ query ++ nl ++ nl
                                   ++ "Document excerpts:" ++ nl ++ formattedChunks))
  end.

(** A stored message; [m_citations = None] when the field is absent or
    [null]. *)
Record message := mkMessage {
  m_id : string;
  m_content : string;
  m_role : string;
  m_threadId : string;
  m_citations : option (list citation);
  m_createdAt : Z
}.

Record thread := mkThread { t_id : string; t_userId : string }.

(** The [Threads] and [Messages] tables (rows in creation order), and the
    module-level in-memory [messages] array with its [messageId] counter. *)
Record chat_state := mkChatState {
  threads : list thread;
  db_messages : list message;
  mem_messages : list message;
  messageId : Z;
  clock : Z
}.

(** [saveMessage] of line 591, the in-memory one:
    [{ id: (messageId++).toString(), ...messageData, createdAt }] pushed to
    [messages].  [messageData] never has a [conversationId], so the
    conversation update finds nothing. *)
Definition saveMessage_mem (st : chat_state) (content role threadId : string)
    (citations : option (list citation)) : chat_state * message :=
  let m := mkMessage (Js.number_to_string (messageId st)) content role threadId
                     citations (clock st) in
  (mkChatState (threads st) (db_messages st) (app (mem_messages st) [m])
               (messageId st + 1) (clock st), m).

(** [processMessage] is an arrow function at module level, so its [this]
    is [module.exports]; the assignment [exports.saveMessage = ...] at
    line 591 replaces the database version of line 207 when the module
    loads, so [this.saveMessage] is the in-memory one. *)
Definition this_saveMessage := saveMessage_mem.

Inductive chat_error :=
| ThreadNotFound
| HistoryQueryFailed
| RetrievalFailed (e : retrieval_error)
| CompletionFailed (e : api_error)
| TypeError.

(** What the collaborators do during one call. *)
Record chat_env := mkChatEnv {
  findAll_ok : bool;                                     (* [Message.findAll] succeeds *)
  retrieval : promise rd_value retrieval_error;          (* [findRelevantDocuments(...)] *)
  completion : list chat_msg -> promise (option string) api_error
    (* the text of the completion ([choices[0].message.content], or the
       streamed text); [None] when that path is missing *)
}.

(** [Message.findAll({ where: { threadId }, order: [['createdAt', 'ASC']],
    limit: 10 })] *)
Definition history_of (st : chat_state) (threadId : string) : list message :=
  firstn 10 (filter (fun m => String.eqb (m_threadId m) threadId) (db_messages st)).

(** Lines 322-345: the messages sent to the model. *)
Definition prompt_messages (history : list message) (userMessage : string) (rd : rd_value)
  : option (list chat_msg) :=
  let formattedHistory := map (fun m => mkChatMsg (m_role m) (m_content m)) history in
  match generatePrompt userMessage rd with
  | None => None
  | Some (p0, p1) => Some (app [p0] (app (Js.slice formattedHistory 0 (-1)) [p1]))
  end.

(** The [try] block of [processMessage(threadId, userId, userMessage)]. *)
Definition processMessage_body (e : chat_env) (st : chat_state)
    (threadId userId userMessage : string)
  : chat_state * promise (message * list citation) chat_error :=
  match List.find (fun t => String.eqb (t_id t) threadId && String.eqb (t_userId t) userId)
                  (threads st) with
  | None => (st, Rejected ThreadNotFound)
  | Some _ =>
      let '(st1, _) := this_saveMessage st userMessage "user" threadId None in
      if negb (findAll_ok e) then (st1, Rejected HistoryQueryFailed) else
      let history := history_of st1 threadId in
      match retrieval e with
      | Rejected err => (st1, Rejected (RetrievalFailed err))
      | Resolved rd =>
          match prompt_messages history userMessage rd with
          | None => (st1, Rejected TypeError)
          | Some messages =>
              match completion e messages with
              | Rejected err => (st1, Rejected (CompletionFailed err))
              | Resolved None => (st1, Rejected TypeError)
              | Resolved (Some responseText) =>
                  match extractCitations_js responseText rd with
                  | None => (st1, Rejected TypeError)
                  | Some citations =>
                      let '(st2, m) := this_saveMessage st1 responseText "assistant"
                                         threadId (Some citations) in
                      (st2, Resolved (m, citations))
                  end
              end
          end
      end
  end.

Definition error_reply : string :=
  "I encountered an error while processing your request. Please try again.".

(** [processMessage]: the [catch] block saves the error reply and rethrows. *)
Definition processMessage (e : chat_env) (st : chat_state)
    (threadId userId userMessage : string)
  : chat_state * promise (message * list citation) chat_error :=
  match processMessage_body e st threadId userId userMessage with
  | (st', Resolved v) => (st', Resolved v)
  | (st', Rejected err) =>
      let '(st'', _) := this_saveMessage st' error_reply "assistant" threadId None in
      (st'', Rejected err)
  end.

End WithSystemPrompt.

End Chat.

(* ================================================================= *)
(** ** Configuration and concrete states *)

Module Fixtures.
Import Embedding Db Index Retrieval Chunker Ingestion Chat.

Definition q34 : string := String (ascii_of_nat 34) EmptyString.

(** [ragConfig.systemPrompt] *)
Definition ragSystemPrompt : string :=
  "You are DocuChat AI, a helpful assistant that answers questions based ONLY on the provided document excerpts." ++ nl
  ++ "- If the answer is not contained within the provided excerpts, respond with " ++ q34
  ++ "I don't have enough information to answer that question." ++ q34 ++ nl
  ++ "- Do not use prior knowledge or make assumptions beyond what's in the excerpts." ++ nl
  ++ "- Always cite your sources using [Doc Title, Page X] format." ++ nl
  ++ "- If multiple documents support your answer, cite all of them." ++ nl
  ++ "- Be concise and accurate.".

(** [ragConfig.maxChunks] and [ragConfig.similarityThreshold] *)
Definition maxChunks : Z := 8.
Definition similarityThreshold : Q := 1 # 4.

Fixpoint repeat_string (n : nat) (s : string) : string :=
  match n with O => "" | S k => s ++ repeat_string k s end.

(** A page of 700 one-character tokens under [char_encode]. *)
Definition page700 : string := repeat_string 700 "a".

(** In the concrete states below every stored embedding equals the query
    embedding [unit_vec], a unit vector of [dimensions] coordinates, whose
    cosine distance to it is 0. *)
Definition dist_equal : vec -> vec -> Q := fun _ _ => 0%Q.
Definition unit_vec : vec := one :: List.repeat zero (dimensions - 1).
Definition embed_ok : string -> api_outcome := fun _ => ApiResolves (Some [Some unit_vec]).
Definition rnd_half : nat -> float := fun _ => 0.75%float.

Definition u1 : user := mkUser "u1" (Some "acme").

Definition doc (id : string) (s : status) : document :=
  mkDocument id "Report" (Some "acme") None [] s.

Definition row (id docId : string) : chunkRow :=
  mkChunkRow id docId "The monthly growth trend shows a 5% increase." (Some 2) 9 0 8 unit_vec.

Definition default_options : rd_options := mkRdOptions None [] maxChunks similarityThreshold.

Definition search_opts : search_options :=
  mkSearchOptions maxChunks similarityThreshold None (Some "acme").

(** Two chunks of one document with the same embedding. *)
Definition db_tie : db := mkDb [u1] [doc "d1" Ready] [row "c1" "d1"; row "c2" "d1"].

(** A document whose ingestion is about to run, split over two pages. *)
Definition db_fresh : db := mkDb [u1] [doc "d1" Pending] [].
Definition two_pages : string := "alpha" ++ String (ascii_of_nat 12) "beta".

(** Ingestion while the embedding API is down. *)
Definition env_api_down : env :=
  mkEnv (fun _ _ => ApiRejects Timeout) (fun _ => rnd_half) (fun _ => true)
        (fun i => "chunk-" ++ Js.number_to_string (Z.of_nat i)) (fun _ => true).

(** A thread with twelve stored messages. *)
Definition stored (n : nat) : message :=
  mkMessage (Js.number_to_string (Z.of_nat n))
            ("turn " ++ Js.number_to_string (Z.of_nat n))
            (if Nat.even n then "assistant" else "user") "t1" None (Z.of_nat n).

Definition chat_st12 : chat_state :=
  mkChatState [mkThread "t1" "u1"] (map stored (seq 1 12)) [] 1 100.

Definition chat_env_fails : chat_env :=
  mkChatEnv true (Resolved (RDArray [])) (fun _ => Rejected ServerError).

End Fixtures.

(* ================================================================= *)
(** * Proofs *)

(* ----------------------------------------------------------------- *)
(** ** Chunker *)

Module ChunkerFacts.
Import Js Chunker Fixtures.

Lemma overlapTokens_config : overlapTokensOf chunkSize chunkOverlap = FInt 160.
Proof. vm_compute. reflexivity. Qed.

(** A single non-blank page is chunked by one run of the loop. *)
Lemma single_page_chunks (encode : string -> option (list Z)) (text : string)
    (tokens : list Z) :
  split_pages text = [text] -> is_blank text = false -> encode text = Some tokens ->
  splitTextIntoChunks encode text chunkSize chunkOverlap
  = match chunk_loop (S (length tokens)) tokens 1 800 160 0 with
    | Some cs => Returns (app cs [])
    | None => Loops
    end.
Proof.
  intros Hsplit Hblank He. unfold splitTextIntoChunks.
  rewrite Hsplit, overlapTokens_config. cbn [pages_go].
  unfold chunk_page. rewrite Hblank, He.
  destruct (chunk_loop _ _ _ _ _ _); reflexivity.
Qed.

(** With 640 < n < 800 tokens, the first window [0, n) already reaches
    the end of the page, the next start 640 is still inside it, and a
    second window [640, n) is emitted. *)
Lemma chunk_loop_two_windows (tokens : list Z) (p : Z) :
  640 < Z.of_nat (length tokens) < 800 ->
  exists c1 c2,
    chunk_loop (S (length tokens)) tokens p 800 160 0 = Some [c1; c2] /\
    startIndex c1 = 0 /\ endIndex c1 = Z.of_nat (length tokens) - 1 /\
    startIndex c2 = 640 /\ endIndex c2 = Z.of_nat (length tokens) - 1 /\
    page c1 = p /\ page c2 = p.
Proof.
  intros H. remember (length tokens) as n eqn:En.
  destruct n as [|m]; [lia|].
  cbn [chunk_loop]. rewrite <- En.
  destruct (Z.ltb_spec 0 (Z.of_nat (S m))); [|lia].
  destruct (Z.leb_spec (Z.of_nat (S m)) (0 + (800 - 160))); [lia|].
  destruct (Z.ltb_spec (0 + (800 - 160)) (Z.of_nat (S m))); [|lia].
  destruct (Z.leb_spec (Z.of_nat (S m)) (0 + (800 - 160) + (800 - 160))); [|lia].
  cbn [option_map].
  eexists _, _. split; [reflexivity|]. cbn. lia.
Qed.

(** [char_tokenizer] accepts [page700]: 700 tokens. *)
Lemma page700_tokens :
  split_pages page700 = [page700] /\ is_blank page700 = false /\
  char_tokenizer page700 = Some (char_encode page700) /\
  640 < Z.of_nat (length (char_encode page700)) < 800.
Proof.
  split; [vm_compute; reflexivity|].
  split; [vm_compute; reflexivity|].
  split; [vm_compute; reflexivity|].
  vm_compute. split; reflexivity.
Qed.

(** C3 (code_bug).  Empty text gives no chunk, but a single page with
    fewer tokens than [chunkSize] (here 640 < n < 800) gives two chunks,
    not one: the end-of-page test looks at the next start instead of the
    end of the window just emitted. *)
Theorem splitTextIntoChunks_short_page_two_chunks (encode : string -> option (list Z))
    (text : string) (tokens : list Z) :
  split_pages text = [text] -> is_blank text = false -> encode text = Some tokens ->
  640 < Z.of_nat (length tokens) < 800 ->
  splitTextIntoChunks encode "" chunkSize chunkOverlap = Returns [] /\
  run_map (@length chunk) (splitTextIntoChunks encode text chunkSize chunkOverlap)
  = Returns 2%nat.
Proof.
  intros Hsplit Hblank He Hn. split; [vm_compute; reflexivity|].
  rewrite (single_page_chunks encode text tokens Hsplit Hblank He).
  destruct (chunk_loop_two_windows tokens 1 Hn)
    as (c1 & c2 & -> & _). reflexivity.
Qed.

Lemma splitTextIntoChunks_short_page_two_chunks_witness :
  (split_pages page700 = [page700] /\ is_blank page700 = false /\
   char_tokenizer page700 = Some (char_encode page700) /\
   640 < Z.of_nat (length (char_encode page700)) < 800) /\
  splitTextIntoChunks char_tokenizer "" chunkSize chunkOverlap = Returns [] /\
  run_map (@length chunk) (splitTextIntoChunks char_tokenizer page700 chunkSize chunkOverlap)
  = Returns 2%nat.
Proof.
  destruct page700_tokens as (H1 & H2 & H3 & H4).
  split; [split; [exact H1 | split; [exact H2 | split; [exact H3 | exact H4]]]|].
  exact (splitTextIntoChunks_short_page_two_chunks char_tokenizer page700
           (char_encode page700) H1 H2 H3 H4).
Defined.

(** C8 (code_bug).  On such a page the two consecutive chunks share
    [n - 640] tokens, from 1 to 159, not 160 +- 1. *)
Theorem splitTextIntoChunks_tail_overlap (encode : string -> option (list Z))
    (text : string) (tokens : list Z) :
  split_pages text = [text] -> is_blank text = false -> encode text = Some tokens ->
  640 < Z.of_nat (length tokens) < 800 ->
  exists c1 c2,
    splitTextIntoChunks encode text chunkSize chunkOverlap = Returns [c1; c2] /\
    page c1 = page c2 /\
    token_overlap c1 c2 = Z.of_nat (length tokens) - 640.
Proof.
  intros Hsplit Hblank He Hn.
  rewrite (single_page_chunks encode text tokens Hsplit Hblank He).
  destruct (chunk_loop_two_windows tokens 1 Hn)
    as (c1 & c2 & -> & Hs1 & He1 & Hs2 & He2 & Hp1 & Hp2).
  exists c1, c2. split; [reflexivity|]. split; [congruence|].
  unfold token_overlap. rewrite Hs1, He1, Hs2, He2. lia.
Qed.

Lemma splitTextIntoChunks_tail_overlap_witness :
  (split_pages page700 = [page700] /\ is_blank page700 = false /\
   char_tokenizer page700 = Some (char_encode page700) /\
   640 < Z.of_nat (length (char_encode page700)) < 800) /\
  exists c1 c2,
    splitTextIntoChunks char_tokenizer page700 chunkSize chunkOverlap = Returns [c1; c2] /\
    page c1 = page c2 /\ token_overlap c1 c2 = 60.
Proof.
  destruct page700_tokens as (H1 & H2 & H3 & H4).
  split; [split; [exact H1 | split; [exact H2 | split; [exact H3 | exact H4]]]|].
  destruct (splitTextIntoChunks_tail_overlap char_tokenizer page700
              (char_encode page700) H1 H2 H3 H4)
    as (c1 & c2 & Hc & Hp & Ho).
  exists c1, c2. split; [exact Hc|]. split; [exact Hp|].
  rewrite Ho. vm_compute. reflexivity.
Defined.

End ChunkerFacts.

(* ----------------------------------------------------------------- *)
(** ** Embedding generator *)

Module EmbeddingFacts.
Import Embedding Fixtures.

(** The cases that reach the [catch] block of [generateEmbedding]. *)
Definition call_fails (o : api_outcome) : bool :=
  match o with
  | ApiResolves (Some (_ :: _)) => false
  | _ => true
  end.

Lemma fallback_embedding_length (dims : nat) (rnd : nat -> float) :
  length (fallback_embedding dims rnd) = dims.
Proof. unfold fallback_embedding. rewrite !length_map. apply length_seq. Qed.

(** C1 (counterexample).  With the API rejecting with a timeout, the
    promise resolves to a vector of 1536 values made from [Math.random]. *)
Lemma generateEmbedding_timeout_resolves :
  generateEmbedding (fun _ => ApiRejects Timeout) rnd_half "What is the monthly growth trend?"
  = Resolved (Some (fallback_embedding dimensions rnd_half)) /\
  length (fallback_embedding dimensions rnd_half) = 1536%nat.
Proof. split; [reflexivity | apply fallback_embedding_length]. Qed.

(** C1 (amended).  [generateEmbedding] never rejects, whatever the call
    does.  It resolves to [response.data[0].embedding] when the response
    has a [data[0]] ([undefined] when that item has no [embedding]); when
    the call fails (it rejects, or the response has no [data[0]]) it
    resolves to the random vector of [embeddingConfig.dimensions] values
    divided by their norm, with no flag consulted. *)
Theorem generateEmbedding_fallback (openai_embed : string -> api_outcome)
    (rnd : nat -> float) (text : string) :
  (forall err, generateEmbedding openai_embed rnd text <> Rejected err) /\
  (forall item rest, openai_embed text = ApiResolves (Some (item :: rest)) ->
     generateEmbedding openai_embed rnd text = Resolved item) /\
  (call_fails (openai_embed text) = true ->
   generateEmbedding openai_embed rnd text = Resolved (Some (fallback_embedding dimensions rnd)) /\
   length (fallback_embedding dimensions rnd) = dimensions).
Proof.
  unfold generateEmbedding. split; [|split].
  - intros err. destruct (openai_embed text) as [e|[[|i l]|]]; discriminate.
  - intros item rest ->. reflexivity.
  - intros Hf. split; [|apply fallback_embedding_length].
    destruct (openai_embed text) as [e|[[|i l]|]]; simpl in *; congruence.
Qed.

Lemma generateEmbedding_fallback_witness :
  call_fails (ApiRejects QuotaExceeded) = true /\
  generateEmbedding (fun _ => ApiRejects QuotaExceeded) rnd_half "hello"
  = Resolved (Some (fallback_embedding dimensions rnd_half)) /\
  length (fallback_embedding dimensions rnd_half) = dimensions.
Proof.
  split; [reflexivity|].
  exact (proj2 (proj2 (generateEmbedding_fallback (fun _ => ApiRejects QuotaExceeded)
                         rnd_half "hello")) eq_refl).
Defined.

End EmbeddingFacts.

(* ----------------------------------------------------------------- *)
(** ** Citation extractor *)

Module CitationFacts.
Import Db Index Chat.

Definition chunk_ids (ps : list passage) : list string := map (fun p => ch_id (p_chunk p)) ps.

(** The invariant of the loop: citations name passages, once each. *)
Definition sound (ps : list passage) (cs : list citation) : Prop :=
  Forall (fun c => In (chunkId c) (chunk_ids ps)) cs /\ NoDup (map chunkId cs).

Lemma extract_step_sound (ps : list passage) (cs : list citation) (ds : string) :
  sound ps cs -> sound ps (extract_step ps cs ds).
Proof.
  intros [Hin Hnd]. unfold extract_step.
  destruct (_ && _); [|split; assumption].
  destruct (nth_error ps _) as [p|] eqn:Hp; [|split; assumption].
  destruct (existsb _ cs) eqn:Hex; [split; assumption|].
  split.
  - apply Forall_app. split; [exact Hin|].
    constructor; [|constructor]. simpl. unfold chunk_ids.
    apply (in_map (fun q => ch_id (p_chunk q))). eapply nth_error_In. exact Hp.
  - rewrite map_app. simpl.
    apply NoDup_app. split; [exact Hnd|]. split.
    + intros x Hx Hx'. apply list_elem_of_singleton in Hx'. subst x.
      apply list_elem_of_In, in_map_iff in Hx as (c & Hc & Hcin).
      assert (existsb (fun c0 => String.eqb (chunkId c0) (ch_id (p_chunk p))) cs = true) as Ht.
      { apply existsb_exists. exists c. split; [exact Hcin|].
        apply String.eqb_eq. exact Hc. }
      congruence.
    + apply NoDup_singleton.
Qed.

Lemma fold_extract_sound (ps : list passage) (refs : list string) (cs : list citation) :
  sound ps cs -> sound ps (fold_left (extract_step ps) refs cs).
Proof.
  revert cs. induction refs as [|r refs IH]; intros cs H; simpl.
  - exact H.
  - apply IH, extract_step_sound, H.
Qed.

(** C6.  Every citation [extractCitations] produces names the chunk id of
    a passage it was given, and no chunk id occurs twice; out-of-range
    ordinals add nothing. *)
Theorem extractCitations_sound (response : string) (relevantDocuments : list passage) :
  Forall (fun c => In (chunkId c) (chunk_ids relevantDocuments))
         (extractCitations response relevantDocuments) /\
  NoDup (map chunkId (extractCitations response relevantDocuments)).
Proof.
  apply fold_extract_sound. split; [constructor | constructor].
Qed.

End CitationFacts.

(* ----------------------------------------------------------------- *)
(** ** Vector index *)

Module IndexFacts.
Import Embedding Db Index Fixtures.

Lemma Qred_idem (q : Q) : Qred (Qred q) = Qred q.
Proof. apply Qred_complete, Qred_correct. Qed.

Lemma in_candidates (cd : vec -> vec -> Q) (d : db) (q : option vec) (o : search_options)
    (p : passage) :
  In p (candidates cd d q o) ->
  (threshold o <= p_similarity p)%Q /\ Qred (p_similarity p) = p_similarity p.
Proof.
  unfold candidates. intros H.
  apply in_flat_map in H as (c & _ & H).
  apply in_flat_map in H as (dc & _ & H).
  destruct (String.eqb _ _); [|destruct H].
  destruct (similarity cd q (ch_embedding c)) as [s|] eqn:Hs; [|destruct H].
  destruct (Qle_bool (threshold o) s) eqn:Hle; simpl in H; [|destruct H].
  destruct (_ && _); [|destruct H].
  destruct H as [<-|[]]. simpl. split.
  - apply Qle_bool_iff. exact Hle.
  - destruct q; simpl in Hs; [|discriminate]. injection Hs as <-. apply Qred_idem.
Qed.

Lemma HdRel_firstn {A} (R : A -> A -> Prop) (a : A) (n : nat) (l : list A) :
  HdRel R a l -> HdRel R a (firstn n l).
Proof. destruct 1; destruct n; simpl; constructor; assumption. Qed.

Lemma Sorted_firstn {A} (R : A -> A -> Prop) (n : nat) (l : list A) :
  Sorted R l -> Sorted R (firstn n l).
Proof.
  intros H. revert n. induction H as [|a l Hs IH Hhd]; intros [|n]; simpl; constructor.
  - apply IH.
  - apply HdRel_firstn, Hhd.
Qed.

(** Passages made of the two rows of [db_tie], at similarity 1. *)
Definition p1 : passage := mkPassage (row "c1" "d1") "Report" 1.
Definition p2 : passage := mkPassage (row "c2" "d1") "Report" 1.

(** An [undefined] query embedding, bound as [NULL], selects no row. *)
Lemma candidates_none (cd : vec -> vec -> Q) (d : db) (o : search_options) :
  candidates cd d None o = [].
Proof.
  unfold candidates. generalize (chunks d) as cs. intros cs.
  induction cs as [|c cs IH]; [reflexivity|].
  cbn [flat_map]. rewrite IH, app_nil_r.
  generalize (documents d) as ds. intros ds.
  induction ds as [|x xs IHd]; [reflexivity|].
  cbn [flat_map]. rewrite IHd, app_nil_r. cbn [similarity].
  destruct (String.eqb _ _); reflexivity.
Qed.

(** What [findSimilar] may settle to: the refusal of an array embedding,
    or, for [undefined], the refusal of a negative [LIMIT] or [undefined]. *)
Lemma findSimilar_cases (cd : vec -> vec -> Q) (d : db) (q : option vec)
    (o : search_options) (r : promise (option passage) sql_error) :
  findSimilar cd d q o r ->
  (exists v, q = Some v /\ r = Rejected NotAVector) \/
  (q = None /\ ((limit o < 0 /\ r = Rejected NegativeLimit) \/
                (0 <= limit o /\ r = Resolved None))).
Proof.
  unfold findSimilar. destruct q as [v|].
  - intros ->. left. exists v. split; reflexivity.
  - destruct (Z.ltb_spec (limit o) 0) as [Hl|Hl].
    + intros ->. right. split; [reflexivity|]. left. split; [exact Hl | reflexivity].
    + intros (L & [HP _] & ->). right. split; [reflexivity|]. right. split; [exact Hl|].
      rewrite candidates_none in HP. apply Permutation_sym, Permutation_nil in HP. subst L.
      destruct (Z.to_nat (limit o)); reflexivity.
Qed.

(** C4.  Two runs of [findSimilar] on the same index state, query vector
    and options settle to the same result.  There is no ranked list to
    order: an array embedding is refused, and an [undefined] one gives
    [undefined] (or the refusal of a negative [LIMIT]). *)
Theorem findSimilar_deterministic (cosine_distance : vec -> vec -> Q) (d : db)
    (q : option vec) (o : search_options) (r1 r2 : promise (option passage) sql_error) :
  findSimilar cosine_distance d q o r1 -> findSimilar cosine_distance d q o r2 ->
  r1 = r2 /\
  (r1 = Rejected NotAVector \/ r1 = Rejected NegativeLimit \/ r1 = Resolved None).
Proof.
  intros H1 H2.
  destruct (findSimilar_cases _ _ _ _ _ H1) as [(v & Hq & ->) | (Hq & [(Hl & ->) | (Hl & ->)])];
  destruct (findSimilar_cases _ _ _ _ _ H2) as [(v' & Hq' & ->) | (Hq' & [(Hl' & ->) | (Hl' & ->)])];
  subst; try discriminate; try lia; auto.
Qed.

Lemma findSimilar_deterministic_witness :
  findSimilar dist_equal db_tie (Some unit_vec) search_opts (Rejected NotAVector) /\
  findSimilar dist_equal db_tie (Some unit_vec) search_opts (Rejected NotAVector) /\
  (@Rejected (option passage) sql_error NotAVector = Rejected NotAVector /\
   (@Rejected (option passage) sql_error NotAVector = Rejected NotAVector \/
    @Rejected (option passage) sql_error NotAVector = Rejected NegativeLimit \/
    @Rejected (option passage) sql_error NotAVector = Resolved None)).
Proof.
  assert (H : findSimilar dist_equal db_tie (Some unit_vec) search_opts (Rejected NotAVector))
    by reflexivity.
  split; [exact H|]. split; [exact H|].
  exact (findSimilar_deterministic dist_equal db_tie (Some unit_vec) search_opts _ _ H H).
Defined.

(** The rows bound by [const [results] = ...]: none, or the first. *)
Definition returned (r : option passage) : list passage :=
  match r with Some p => [p] | None => [] end.

Lemma In_firstn_in {A} (n : nat) (l : list A) (x : A) : In x (firstn n l) -> In x l.
Proof.
  intros H. rewrite <- (firstn_skipn n l). apply in_or_app. left. exact H.
Qed.

(** C5.  When [findSimilar] succeeds, the rows the query produced after
    [LIMIT] are all at or above the threshold, ordered by similarity
    descending and no more than [limit] many; the value returned is the
    first of them, so it satisfies the same bounds. *)
Theorem findSimilar_bounds (cosine_distance : vec -> vec -> Q) (d : db)
    (q : option vec) (o : search_options) (res : option passage) :
  findSimilar cosine_distance d q o (Resolved res) ->
  exists rows,
    res = head rows /\
    Forall (fun p => (threshold o <= p_similarity p)%Q) rows /\
    Sorted by_similarity_desc rows /\
    Z.of_nat (length rows) <= limit o /\
    Forall (fun p => (threshold o <= p_similarity p)%Q) (returned res) /\
    Z.of_nat (length (returned res)) <= limit o.
Proof.
  unfold findSimilar. destruct q as [v|]; [intros H; discriminate H|].
  destruct (limit o <? 0) eqn:Hl; [intros H; discriminate H|].
  apply Z.ltb_ge in Hl.
  intros (L & [HP HS] & Heq). injection Heq as ->.
  assert (Hall : Forall (fun p => (threshold o <= p_similarity p)%Q)
                        (firstn (Z.to_nat (limit o)) L)).
  { apply Forall_forall. intros p Hp. apply list_elem_of_In in Hp.
    apply In_firstn_in, (Permutation_in _ HP), in_candidates in Hp as [H _]. exact H. }
  assert (Hlen : Z.of_nat (length (firstn (Z.to_nat (limit o)) L)) <= limit o).
  { rewrite length_firstn. lia. }
  exists (firstn (Z.to_nat (limit o)) L). split; [reflexivity|].
  split; [exact Hall|]. split; [apply Sorted_firstn, HS|]. split; [exact Hlen|].
  destruct (firstn (Z.to_nat (limit o)) L) as [|p rest] eqn:E; simpl in *.
  - split; [constructor | lia].
  - inversion Hall; subst. split; [constructor; [assumption | constructor] | lia].
Qed.

(** [undefined] searched in [db_tie]: the query selects no row. *)
Lemma db_tie_undefined :
  findSimilar dist_equal db_tie None search_opts (Resolved None).
Proof.
  unfold findSimilar. simpl. exists []. split; [|reflexivity].
  rewrite candidates_none. split; [reflexivity | constructor].
Qed.

Lemma findSimilar_bounds_witness :
  findSimilar dist_equal db_tie None search_opts (Resolved None) /\
  exists rows,
    None = head rows /\
    Forall (fun p => (threshold search_opts <= p_similarity p)%Q) rows /\
    Sorted by_similarity_desc rows /\
    Z.of_nat (length rows) <= limit search_opts /\
    Forall (fun p => (threshold search_opts <= p_similarity p)%Q) (returned None) /\
    Z.of_nat (length (returned None)) <= limit search_opts.
Proof.
  split; [exact db_tie_undefined|].
  exact (findSimilar_bounds dist_equal db_tie None search_opts None db_tie_undefined).
Defined.

End IndexFacts.

(* ----------------------------------------------------------------- *)
(** ** Retrieval and document status *)

Module RetrievalFacts.
Import Embedding Db Index Retrieval Fixtures.

(** An embedding response whose [data[0]] has no [embedding] field. *)
Definition embed_no_field : string -> api_outcome := fun _ => ApiResolves (Some [None]).

(** C2.  Whatever [findRelevantDocuments] resolves to carries no passage
    of a document that is not [Ready]: it carries no passage at all, since
    an array embedding is refused by the search and an [undefined] one
    selects no row. *)
Theorem findRelevantDocuments_ready_only (cosine_distance : vec -> vec -> Q)
    (openai_embed : string -> api_outcome) (rnd : nat -> float) (d : db)
    (query userId : string) (o : rd_options) (v : rd_value) :
  findRelevantDocuments cosine_distance openai_embed rnd d query userId o (Resolved v) ->
  rd_passages v = [] /\
  (forall p, In p (rd_passages v) -> status_of d (ch_documentId (p_chunk p)) = Some Ready).
Proof.
  intros H.
  assert (Hv : rd_passages v = []).
  { unfold findRelevantDocuments in H. destruct H as [H|H]; [discriminate H|].
    destruct (find_user d userId) as [u|]; [|discriminate H].
    destruct (generateEmbedding openai_embed rnd query) as [qe|e]; [|discriminate H].
    destruct (resolve_scope d u o) as [|so].
    - injection H as H. subst v. reflexivity.
    - destruct H as (res & Hs & Hr).
      destruct (IndexFacts.findSimilar_cases _ _ _ _ _ Hs)
        as [(w & _ & ->) | (_ & [(_ & ->) | (_ & ->)])]; simpl in Hr;
        [discriminate Hr | discriminate Hr | injection Hr as Hr; subst v; reflexivity]. }
  split; [exact Hv|]. rewrite Hv. intros p [].
Qed.

Lemma findRelevantDocuments_ready_only_witness :
  findRelevantDocuments dist_equal embed_no_field rnd_half db_tie
    "What is the monthly growth trend?" "u1" default_options (Resolved RDUndefined) /\
  rd_passages RDUndefined = [] /\
  (forall p, In p (rd_passages RDUndefined) ->
     status_of db_tie (ch_documentId (p_chunk p)) = Some Ready).
Proof.
  assert (H : findRelevantDocuments dist_equal embed_no_field rnd_half db_tie
                "What is the monthly growth trend?" "u1" default_options (Resolved RDUndefined)).
  { right. simpl. exists (Resolved None). split; [|reflexivity].
    exact IndexFacts.db_tie_undefined. }
  split; [exact H|].
  exact (findRelevantDocuments_ready_only dist_equal embed_no_field rnd_half db_tie
           "What is the monthly growth trend?" "u1" default_options RDUndefined H).
Defined.

End RetrievalFacts.

(* ----------------------------------------------------------------- *)
(** ** Ingestion and document status *)

Module IngestionFacts.
Import Embedding Db Chunker Ingestion Fixtures.

(** A chunk task that resolved. *)
Definition task_ok (r : promise chunkRow ingest_error) : bool :=
  match r with Resolved _ => true | Rejected _ => false end.

Lemma forallb_first_rejection (rs : list (promise chunkRow ingest_error)) :
  forallb task_ok rs = match first_rejection rs with None => true | Some _ => false end.
Proof.
  induction rs as [|r rs IH]; [reflexivity|]. destruct r; simpl; [exact IH | reflexivity].
Qed.

Lemma find_document_set_status (d : db) (id : string) (s : status) (doc0 : document) :
  find_document d id = Some doc0 ->
  status_of (set_status d id s) id = Some s /\
  exists doc1, find_document (set_status d id s) id = Some doc1.
Proof.
  unfold status_of, find_document. simpl.
  induction (documents d) as [|x l IH]; simpl; [discriminate|].
  destruct (String.eqb (doc_id x) id) eqn:E; simpl.
  - intros _. rewrite E. split; [reflexivity|]. eexists. reflexivity.
  - rewrite E. exact IH.
Qed.

Lemma on_error_status (e : env) (d : db) (id : string)
    (doc0 : document) (err : ingest_error) :
  find_document d id = Some doc0 -> status_write_ok e Error = true ->
  status_of (fst (on_error e d id err)) id = Some Error.
Proof.
  intros Hd He. unfold on_error. rewrite Hd, He. simpl.
  apply (find_document_set_status d id Error doc0 Hd).
Qed.

(** A chunk task whose embedding call fails gets the random vector: the
    insert alone decides it. *)
Lemma chunk_task_call_fails (e : env) (documentId : string) (i : nat) (c : chunk) :
  EmbeddingFacts.call_fails (openai_embed e i (text c)) = true ->
  task_ok (chunk_task e documentId i c) = create_ok e i.
Proof.
  intros H. unfold chunk_task, generateEmbedding.
  destruct (openai_embed e i (text c)) as [err|[[|item rest]|]]; simpl in H;
    try discriminate H; destruct (create_ok e i); reflexivity.
Qed.

(** A [data[0]] without [embedding] makes [Chunk.create] refuse the row
    before it reaches the database. *)
Lemma chunk_task_null_embedding (e : env) (documentId : string) (i : nat) (c : chunk)
    (rest : list (option vec)) :
  openai_embed e i (text c) = ApiResolves (Some (None :: rest)) ->
  task_ok (chunk_task e documentId i c) = false.
Proof. intros H. unfold chunk_task, generateEmbedding. rewrite H. reflexivity. Qed.

Lemma chunks_on_error (e : env) (d : db) (id : string) (err : ingest_error) :
  chunks (fst (on_error e d id err)) = chunks d.
Proof.
  unfold on_error. destruct (find_document d id); [|reflexivity].
  destruct (status_write_ok e Error); reflexivity.
Qed.

(** C9 (counterexample).  Every call to the embedding API fails, yet the
    run completes and the document ends in status [Ready]. *)
Lemma processDocument_ready_without_embeddings :
  (forall i t, openai_embed env_api_down i t = ApiRejects Timeout) /\
  snd (processDocument char_tokenizer env_api_down db_fresh "d1" "hello") = Done /\
  status_of (fst (processDocument char_tokenizer env_api_down db_fresh "d1" "hello")) "d1"
    = Some Ready.
Proof.
  split; [reflexivity|]. split; vm_compute; reflexivity.
Qed.

(** C9 (amended).  For a document that exists, a text the tokenizer
    accepts and the chunker terminates on, and a working write of
    [status: 'error'], the final status is [Ready] exactly when the
    [processing] write, every chunk task (embedding, then [Chunk.create])
    and the [ready] write succeed, and [Error] otherwise.  The rows the
    tasks inserted stay stored whatever the outcome.  A chunk task never
    fails because the embedding call failed (it rejected, or the response
    has no [data[0]]): its outcome is then decided by the insert alone; a
    [data[0]] without [embedding] fails it. *)
Theorem processDocument_final_status (encode : string -> option (list Z)) (e : env) (d : db)
    (documentId text : string) (doc0 : document) (cs : list chunk) :
  find_document d documentId = Some doc0 ->
  splitTextIntoChunks encode text chunkSize chunkOverlap = Returns cs ->
  status_write_ok e Error = true ->
  status_of (fst (processDocument encode e d documentId text)) documentId
    = Some (if status_write_ok e Processing
               && forallb task_ok (imap (chunk_task e documentId) cs)
               && status_write_ok e Ready
            then Ready else Error) /\
  chunks (fst (processDocument encode e d documentId text))
    = app (chunks d) (if status_write_ok e Processing
                      then resolved_rows (imap (chunk_task e documentId) cs) else []) /\
  (forall i c, EmbeddingFacts.call_fails (openai_embed e i (Chunker.text c)) = true ->
     task_ok (chunk_task e documentId i c) = create_ok e i) /\
  (forall i c rest, openai_embed e i (Chunker.text c) = ApiResolves (Some (None :: rest)) ->
     task_ok (chunk_task e documentId i c) = false).
Proof.
  intros Hd Hs He. split; [|split; [|split]].
  - unfold processDocument. rewrite Hd.
    destruct (status_write_ok e Processing) eqn:Hp; simpl.
    2: { eapply on_error_status; eassumption. }
    rewrite Hs. rewrite forallb_first_rejection.
    destruct (find_document_set_status d documentId Processing doc0 Hd) as [_ [doc1 Hd1]].
    assert (Hd2 : find_document
                    (add_chunks (set_status d documentId Processing)
                       (resolved_rows (imap (chunk_task e documentId) cs))) documentId
                  = Some doc1) by exact Hd1.
    destruct (first_rejection _) as [err|]; simpl.
    + eapply on_error_status; eassumption.
    + destruct (status_write_ok e Ready); simpl.
      * apply (find_document_set_status _ _ Ready doc1 Hd2).
      * eapply on_error_status; eassumption.
  - unfold processDocument. rewrite Hd.
    destruct (status_write_ok e Processing); simpl.
    2: { rewrite chunks_on_error, app_nil_r. reflexivity. }
    rewrite Hs.
    destruct (first_rejection _) as [err|]; [rewrite chunks_on_error; reflexivity|].
    destruct (status_write_ok e Ready); [reflexivity|].
    rewrite chunks_on_error. reflexivity.
  - intros i c. apply chunk_task_call_fails.
  - intros i c rest. apply chunk_task_null_embedding.
Qed.

(** The chunks of ["hello"] under [char_tokenizer]. *)
Definition hello_chunks : list chunk := [mkChunk "104 101 108 108 111" 1 5 0 4].

Lemma processDocument_final_status_witness :
  find_document db_fresh "d1" = Some (doc "d1" Pending) /\
  splitTextIntoChunks char_tokenizer "hello" chunkSize chunkOverlap = Returns hello_chunks /\
  status_write_ok env_api_down Error = true /\
  (status_of (fst (processDocument char_tokenizer env_api_down db_fresh "d1" "hello")) "d1"
    = Some (if status_write_ok env_api_down Processing
               && forallb task_ok (imap (chunk_task env_api_down "d1") hello_chunks)
               && status_write_ok env_api_down Ready
            then Ready else Error) /\
  chunks (fst (processDocument char_tokenizer env_api_down db_fresh "d1" "hello"))
    = app (chunks db_fresh) (if status_write_ok env_api_down Processing
                             then resolved_rows (imap (chunk_task env_api_down "d1") hello_chunks)
                             else []) /\
  (forall i c, EmbeddingFacts.call_fails (openai_embed env_api_down i (Chunker.text c)) = true ->
     task_ok (chunk_task env_api_down "d1" i c) = create_ok env_api_down i) /\
  (forall i c rest, openai_embed env_api_down i (Chunker.text c) = ApiResolves (Some (None :: rest)) ->
     task_ok (chunk_task env_api_down "d1" i c) = false)).
Proof.
  assert (H1 : find_document db_fresh "d1" = Some (doc "d1" Pending)) by reflexivity.
  assert (H2 : splitTextIntoChunks char_tokenizer "hello" chunkSize chunkOverlap
               = Returns hello_chunks) by (vm_compute; reflexivity).
  assert (H3 : status_write_ok env_api_down Error = true) by reflexivity.
  split; [exact H1|]. split; [exact H2|]. split; [exact H3|].
  exact (processDocument_final_status char_tokenizer env_api_down db_fresh "d1" "hello"
           (doc "d1" Pending) hello_chunks H1 H2 H3).
Defined.

End IngestionFacts.

(* ----------------------------------------------------------------- *)
(** ** Chat: history and the error path *)

Module ChatFacts.
Import Embedding Db Index Retrieval Chat Fixtures.

Definition as_chat_msg (m : message) : chat_msg := mkChatMsg (m_role m) (m_content m).

(** C7.  Twelve messages stored in thread [t1]: the prompt carries the
    system segment, then turns 1 to 9 (the oldest ones: the query keeps
    the first ten by [createdAt ASC] and [slice(0, -1)] drops the tenth),
    then the user segment; turns 10 to 12, the most recent, are left out. *)
Lemma history_prompt_oldest_turns :
  prompt_messages ragSystemPrompt (history_of chat_st12 "t1") "q" (RDArray [])
  = Some (app [mkChatMsg "system" ragSystemPrompt]
           (app (map as_chat_msg (map stored (seq 1 9)))
                [mkChatMsg "user" ("Question: q" ++ nl ++ nl
                                   ++ "Document excerpts: [No relevant documents found]")])) /\
  ~ In (as_chat_msg (stored 12)) (map as_chat_msg (history_of chat_st12 "t1")).
Proof.
  split; [vm_compute; reflexivity|].
  vm_compute. intros H. repeat (destruct H as [H|H]; [discriminate H|]). exact H.
Qed.

Lemma saveMessage_mem_db (st : chat_state) (content role threadId : string)
    (citations : option (list citation)) :
  db_messages (fst (saveMessage_mem st content role threadId citations)) = db_messages st.
Proof. reflexivity. Qed.

Lemma processMessage_body_db (systemPrompt : string) (e : chat_env) (st : chat_state)
    (threadId userId userMessage : string) :
  db_messages (fst (processMessage_body systemPrompt e st threadId userId userMessage))
  = db_messages st.
Proof.
  unfold processMessage_body, this_saveMessage.
  destruct (List.find _ _); [|reflexivity]. simpl.
  destruct (negb (findAll_ok e)); [reflexivity|].
  destruct (retrieval e) as [rd|err]; [|reflexivity].
  destruct (prompt_messages _ _ _ _) as [msgs|]; [|reflexivity].
  destruct (completion e msgs) as [[txt|]|err]; try reflexivity.
  destruct (extractCitations_js txt rd); reflexivity.
Qed.

(** C10.  When the body of [processMessage] fails, the same error is
    rethrown and the error reply is pushed to the in-memory [messages]
    array through [this.saveMessage]; the thread's rows in the [Messages]
    table are those it had before the call. *)
Theorem processMessage_error_path (systemPrompt : string) (e : chat_env) (st st' : chat_state)
    (threadId userId userMessage : string) (err : chat_error) :
  processMessage_body systemPrompt e st threadId userId userMessage = (st', Rejected err) ->
  snd (processMessage systemPrompt e st threadId userId userMessage) = Rejected err /\
  db_messages (fst (processMessage systemPrompt e st threadId userId userMessage))
    = db_messages st /\
  exists m,
    mem_messages (fst (processMessage systemPrompt e st threadId userId userMessage))
      = app (mem_messages st') [m] /\
    m_content m = error_reply /\ m_role m = "assistant" /\ m_threadId m = threadId /\
    m_citations m = None.
Proof.
  intros H.
  pose proof (processMessage_body_db systemPrompt e st threadId userId userMessage) as Hdb.
  rewrite H in Hdb. simpl in Hdb.
  unfold processMessage. rewrite H. simpl.
  split; [reflexivity|]. split; [exact Hdb|].
  eexists. split; [reflexivity|]. repeat split.
Qed.

Lemma processMessage_error_path_witness :
  processMessage_body ragSystemPrompt chat_env_fails chat_st12 "t1" "u1" "hi"
    = (fst (saveMessage_mem chat_st12 "hi" "user" "t1" None), Rejected (CompletionFailed ServerError)) /\
  snd (processMessage ragSystemPrompt chat_env_fails chat_st12 "t1" "u1" "hi")
    = Rejected (CompletionFailed ServerError) /\
  db_messages (fst (processMessage ragSystemPrompt chat_env_fails chat_st12 "t1" "u1" "hi"))
    = db_messages chat_st12 /\
  exists m,
    mem_messages (fst (processMessage ragSystemPrompt chat_env_fails chat_st12 "t1" "u1" "hi"))
      = app (mem_messages (fst (saveMessage_mem chat_st12 "hi" "user" "t1" None))) [m] /\
    m_content m = error_reply /\ m_role m = "assistant" /\ m_threadId m = "t1" /\
    m_citations m = None.
Proof.
  assert (H : processMessage_body ragSystemPrompt chat_env_fails chat_st12 "t1" "u1" "hi"
    = (fst (saveMessage_mem chat_st12 "hi" "user" "t1" None), Rejected (CompletionFailed ServerError)))
    by (vm_compute; reflexivity).
  split; [exact H|].
  exact (processMessage_error_path ragSystemPrompt chat_env_fails chat_st12 _ "t1" "u1" "hi" _ H).
Defined.

End ChatFacts.

(* ----------------------------------------------------------------- *)
(** ** Chunker: windows, coverage, termination *)

Module ChunkerWindows.
Import Js Chunker Fixtures.

(** What a chunk says about the tokens of its page: an inclusive window
    inside the page, its size, and its text decoded from that window. *)
Definition chunk_in_window (target : Z) (tokens : list Z) (c : chunk) : Prop :=
  0 <= startIndex c <= endIndex c /\ endIndex c < Z.of_nat (length tokens) /\
  tokenCount c = endIndex c - startIndex c + 1 /\ tokenCount c <= target /\
  text c = decode (slice tokens (startIndex c) (endIndex c + 1)).

Lemma slice_length {A} (l : list A) (s e : Z) :
  0 <= s <= e -> e <= Z.of_nat (length l) ->
  length (slice l s e) = Z.to_nat (e - s).
Proof.
  intros Hs He. unfold slice. cbv zeta.
  destruct (Z.ltb_spec s 0); [lia|]. destruct (Z.ltb_spec e 0); [lia|].
  rewrite Z.min_l by lia. rewrite Z.min_l by lia.
  rewrite length_firstn, length_skipn. lia.
Qed.

(** A step that does not advance never leaves a page with tokens left. *)
Lemma chunk_loop_none (fuel : nat) (tokens : list Z) (pg target ot start : Z) :
  target - ot <= 0 -> start < Z.of_nat (length tokens) ->
  chunk_loop fuel tokens pg target ot start = None.
Proof.
  intros Hst. revert start.
  induction fuel as [|f IH]; intros start Hs; [reflexivity|].
  cbn [chunk_loop].
  destruct (Z.ltb_spec start (Z.of_nat (length tokens))); [|lia].
  destruct (Z.leb_spec (Z.of_nat (length tokens)) (start + (target - ot))); [lia|].
  rewrite IH by lia. reflexivity.
Qed.

(** The chunk the loop body emits at a start inside the page. *)
Lemma window_at (target : Z) (tokens : list Z) (pg s : Z) :
  0 < target -> 0 <= s < Z.of_nat (length tokens) ->
  let e := Z.min (s + target) (Z.of_nat (length tokens)) in
  chunk_in_window target tokens
    (mkChunk (decode (slice tokens s e)) pg (Z.of_nat (length (slice tokens s e))) s (e - 1)).
Proof.
  intros Ht Hsl e. subst e. unfold chunk_in_window. cbn.
  rewrite slice_length by lia. rewrite Z.sub_add.
  repeat split; try lia.
Qed.

Lemma chunk_loop_windows (fuel : nat) (tokens : list Z) (pg target ot start : Z) (cs : list chunk) :
  0 < target -> 0 <= start ->
  chunk_loop fuel tokens pg target ot start = Some cs ->
  Forall (fun c => page c = pg /\ chunk_in_window target tokens c) cs.
Proof.
  intros Ht. revert start cs.
  induction fuel as [|f IH]; intros start cs Hs H; [discriminate|].
  cbn [chunk_loop] in H.
  set (len := Z.of_nat (length tokens)) in *.
  destruct (Z.ltb_spec start len); [|injection H as <-; constructor].
  destruct (Z.leb_spec len (start + (target - ot))).
  - injection H as <-. constructor; [split; [reflexivity | apply window_at; lia] | constructor].
  - destruct (chunk_loop f tokens pg target ot (start + (target - ot))) as [l|] eqn:E;
      [|discriminate].
    injection H as <-. constructor; [split; [reflexivity | apply window_at; lia]|].
    destruct (Z.leb_spec (target - ot) 0).
    + rewrite chunk_loop_none in E by lia. discriminate E.
    + apply (IH (start + (target - ot))); [lia | exact E].
Qed.

Lemma chunk_page_windows (encode : string -> option (list Z)) (target : Z) (ot : floor_value)
    (p : string) (j : nat) (cs : list chunk) :
  0 < target ->
  chunk_page encode target ot p j = Returns cs ->
  Forall (fun c => is_blank p = false /\ page c = Z.of_nat j + 1 /\
                   exists tokens, encode p = Some tokens /\ chunk_in_window target tokens c) cs.
Proof.
  intros Ht. unfold chunk_page. destruct (is_blank p) eqn:Hb.
  { intros H. injection H as <-. constructor. }
  destruct (encode p) as [tokens|] eqn:He; [|discriminate].
  assert (Hlift : forall l, Forall (fun c => page c = Z.of_nat j + 1 /\
                                             chunk_in_window target tokens c) l ->
            Forall (fun c => false = false /\ page c = Z.of_nat j + 1 /\
                     exists tokens', Some tokens = Some tokens' /\ chunk_in_window target tokens' c) l).
  { intros l Hl. eapply Forall_impl; [exact Hl|]. intros c [Hp Hw].
    split; [reflexivity|]. split; [exact Hp|]. exists tokens. split; [reflexivity | exact Hw]. }
  destruct ot as [o| | |].
  - destruct (chunk_loop _ _ _ _ _ _) as [l|] eqn:E; [|discriminate].
    intros H. injection H as <-. apply Hlift.
    eapply chunk_loop_windows; [exact Ht | reflexivity | exact E].
  - destruct (Z.ltb_spec 0 (Z.of_nat (length tokens))) as [Hl|Hl]; intros H;
      injection H as <-; [|constructor].
    apply Hlift. constructor; [|constructor]. split; [reflexivity|].
    apply window_at; lia.
  - destruct (0 <? _); [discriminate|]. intros H. injection H as <-. constructor.
  - destruct (Z.ltb_spec 0 (Z.of_nat (length tokens))) as [Hl|Hl]; intros H;
      injection H as <-; [|constructor].
    apply Hlift. constructor; [|constructor]. split; [reflexivity|].
    apply window_at; lia.
Qed.

Lemma pages_go_forall (encode : string -> option (list Z)) (target : Z) (ot : floor_value)
    (P : nat -> string -> chunk -> Prop) (pages : list string) (i0 : nat) (cs : list chunk) :
  (forall j p cs', chunk_page encode target ot p j = Returns cs' -> Forall (P j p) cs') ->
  pages_go encode target ot pages i0 = Returns cs ->
  Forall (fun c => exists j p, nth_error pages j = Some p /\ P (i0 + j)%nat p c) cs.
Proof.
  intros HP. revert i0 cs.
  induction pages as [|p ps IH]; intros i0 cs H; cbn [pages_go] in H.
  - injection H as <-. constructor.
  - destruct (chunk_page encode target ot p i0) as [cs1| |] eqn:E1; try discriminate.
    destruct (pages_go encode target ot ps (S i0)) as [cs2| |] eqn:E2; try discriminate.
    injection H as <-. apply Forall_app. split.
    + eapply Forall_impl; [exact (HP _ _ _ E1)|]. intros c Hc.
      exists 0%nat, p. rewrite Nat.add_0_r. split; [reflexivity | exact Hc].
    + eapply Forall_impl; [exact (IH (S i0) cs2 E2)|]. intros c (j & q & Hj & Hc).
      exists (S j), q. split; [exact Hj|]. replace (i0 + S j)%nat with (S i0 + j)%nat by lia.
      exact Hc.
Qed.

(** The chunks of one run of [splitTextIntoChunks], for any overlap: every
    chunk comes from a non-blank page of the split that the tokenizer
    accepted, carries that page's 1-based number, and is a window of at
    most [targetChunkSize] tokens inside the page's tokens whose text is
    the decoded window. *)
Theorem splitTextIntoChunks_windows (encode : string -> option (list Z)) (text : string)
    (targetChunkSize : Z) (overlap : float) (cs : list chunk) :
  0 < targetChunkSize ->
  splitTextIntoChunks encode text targetChunkSize overlap = Returns cs ->
  Forall (fun c => exists i p tokens,
            nth_error (split_pages text) i = Some p /\ is_blank p = false /\
            encode p = Some tokens /\
            page c = Z.of_nat i + 1 /\ chunk_in_window targetChunkSize tokens c) cs.
Proof.
  intros Ht H. unfold splitTextIntoChunks in H.
  pose proof (pages_go_forall encode targetChunkSize (overlapTokensOf targetChunkSize overlap)
                 (fun j p c => is_blank p = false /\ page c = Z.of_nat j + 1 /\
                               exists tokens, encode p = Some tokens /\
                                              chunk_in_window targetChunkSize tokens c)
                 (split_pages text) 0%nat cs
                 (fun j p cs' Hp => chunk_page_windows encode _ _ p j cs' Ht Hp) H) as HF.
  eapply Forall_impl; [exact HF|].
  intros c (j & p & Hj & Hb & Hpg & tokens & He & Hw). exists j, p, tokens. auto.
Qed.

(** Two pages and their chunks under [char_tokenizer]. *)
Definition two_pages_chunks : list chunk :=
  Eval vm_compute in
    match splitTextIntoChunks char_tokenizer two_pages chunkSize chunkOverlap with
    | Returns cs => cs
    | _ => []
    end.

Lemma splitTextIntoChunks_windows_witness :
  (0 < chunkSize /\
   splitTextIntoChunks char_tokenizer two_pages chunkSize chunkOverlap = Returns two_pages_chunks) /\
  Forall (fun c => exists i p tokens,
            nth_error (split_pages two_pages) i = Some p /\ is_blank p = false /\
            char_tokenizer p = Some tokens /\
            page c = Z.of_nat i + 1 /\ chunk_in_window chunkSize tokens c)
         two_pages_chunks.
Proof.
  assert (H1 : 0 < chunkSize) by reflexivity.
  assert (H3 : splitTextIntoChunks char_tokenizer two_pages chunkSize chunkOverlap
               = Returns two_pages_chunks) by (vm_compute; reflexivity).
  split; [split; [exact H1 | exact H3]|].
  exact (splitTextIntoChunks_windows char_tokenizer two_pages chunkSize chunkOverlap
           two_pages_chunks H1 H3).
Defined.
End ChunkerWindows.

Module ChunkerLoop.
Import Js Chunker Fixtures ChunkerWindows.

Lemma chunk_loop_covers (fuel : nat) (tokens : list Z) (pg target ot start k : Z)
    (cs : list chunk) :
  0 < target - ot <= target ->
  chunk_loop fuel tokens pg target ot start = Some cs ->
  start <= k < Z.of_nat (length tokens) ->
  exists c, In c cs /\ page c = pg /\ startIndex c <= k <= endIndex c.
Proof.
  intros Hst. revert start cs.
  induction fuel as [|f IH]; intros start cs H Hk; [discriminate|].
  cbn [chunk_loop] in H.
  set (len := Z.of_nat (length tokens)) in *.
  destruct (Z.ltb_spec start len); [|lia].
  assert (Hhead : forall rest, k < start + (target - ot) ->
    exists c, In c (mkChunk (decode (slice tokens start (Z.min (start + target) len))) pg
                       (Z.of_nat (length (slice tokens start (Z.min (start + target) len))))
                       start (Z.min (start + target) len - 1) :: rest) /\
              page c = pg /\ startIndex c <= k <= endIndex c).
  { intros rest Hlt. eexists. split; [left; reflexivity|]. cbn. split; [reflexivity|]. lia. }
  destruct (Z.leb_spec len (start + (target - ot))).
  - injection H as <-. apply Hhead. lia.
  - destruct (chunk_loop f tokens pg target ot (start + (target - ot))) as [l|] eqn:E;
      [|discriminate].
    injection H as <-.
    destruct (Z.ltb_spec k (start + (target - ot))); [apply Hhead; assumption|].
    destruct (IH _ _ E) as (c & Hin & Hc); [lia|].
    exists c. split; [right; exact Hin | exact Hc].
Qed.

Lemma pages_go_page (encode : string -> option (list Z)) (target : Z) (ot : floor_value)
    (pages : list string) (i0 j : nat) (p : string) (cs : list chunk) :
  pages_go encode target ot pages i0 = Returns cs -> nth_error pages j = Some p ->
  exists cs', chunk_page encode target ot p (i0 + j) = Returns cs' /\ incl cs' cs.
Proof.
  revert i0 j cs. induction pages as [|q ps IH]; intros i0 j cs H Hj.
  - destruct j; discriminate.
  - cbn [pages_go] in H.
    destruct (chunk_page encode target ot q i0) as [cs1| |] eqn:E1; try discriminate.
    destruct (pages_go encode target ot ps (S i0)) as [cs2| |] eqn:E2; try discriminate.
    injection H as <-. destruct j as [|j]; cbn in Hj.
    + injection Hj as <-. exists cs1. rewrite Nat.add_0_r. split; [exact E1|].
      intros x Hx. apply in_or_app. left. exact Hx.
    + destruct (IH (S i0) j cs2 E2 Hj) as (cs' & Hc & Hi).
      exists cs'. replace (i0 + S j)%nat with (S i0 + j)%nat by lia. split; [exact Hc|].
      intros x Hx. apply in_or_app. right. apply Hi, Hx.
Qed.

(** No token is lost: with an overlap of at least 0 tokens and less than
    [targetChunkSize], every token position of every non-blank page lies
    in some chunk carrying that page's number. *)
Theorem splitTextIntoChunks_covers (encode : string -> option (list Z)) (text : string)
    (targetChunkSize : Z) (overlap : float) (ot : Z) (cs : list chunk) (i : nat) (p : string)
    (tokens : list Z) (k : Z) :
  overlapTokensOf targetChunkSize overlap = FInt ot -> 0 <= ot < targetChunkSize ->
  splitTextIntoChunks encode text targetChunkSize overlap = Returns cs ->
  nth_error (split_pages text) i = Some p -> is_blank p = false -> encode p = Some tokens ->
  0 <= k < Z.of_nat (length tokens) ->
  exists c, In c cs /\ page c = Z.of_nat i + 1 /\ startIndex c <= k <= endIndex c.
Proof.
  intros Hov Hot H Hi Hb He Hk. unfold splitTextIntoChunks in H. rewrite Hov in H.
  destruct (pages_go_page encode _ _ _ 0 i p cs H Hi) as (cs' & Hc & Hincl).
  cbn [Nat.add] in Hc. unfold chunk_page in Hc. rewrite Hb, He in Hc.
  destruct (chunk_loop _ _ _ _ _ _) as [l|] eqn:El; [|discriminate].
  injection Hc as <-.
  assert (Hst : 0 < targetChunkSize - ot <= targetChunkSize) by lia.
  destruct (chunk_loop_covers _ _ _ _ _ 0 k l Hst El ltac:(lia))
    as (c & Hin & Hpg & Hr).
  exists c. split; [apply Hincl, Hin | split; assumption].
Qed.

Lemma splitTextIntoChunks_covers_witness :
  (overlapTokensOf chunkSize chunkOverlap = FInt 160 /\ 0 <= 160 < chunkSize /\
   splitTextIntoChunks char_tokenizer two_pages chunkSize chunkOverlap = Returns two_pages_chunks /\
   nth_error (split_pages two_pages) 1 = Some "beta" /\ is_blank "beta" = false /\
   char_tokenizer "beta" = Some (char_encode "beta") /\
   0 <= 3 < Z.of_nat (length (char_encode "beta"))) /\
  exists c, In c two_pages_chunks /\ page c = Z.of_nat 1 + 1 /\ startIndex c <= 3 <= endIndex c.
Proof.
  assert (H0 : overlapTokensOf chunkSize chunkOverlap = FInt 160) by (vm_compute; reflexivity).
  assert (H1 : 0 <= 160 < chunkSize) by (vm_compute; split; congruence).
  assert (H2 : splitTextIntoChunks char_tokenizer two_pages chunkSize chunkOverlap
               = Returns two_pages_chunks) by (vm_compute; reflexivity).
  assert (H3 : nth_error (split_pages two_pages) 1 = Some "beta") by (vm_compute; reflexivity).
  assert (H4 : is_blank "beta" = false) by reflexivity.
  assert (H5 : char_tokenizer "beta" = Some (char_encode "beta")) by (vm_compute; reflexivity).
  assert (H6 : 0 <= 3 < Z.of_nat (length (char_encode "beta")))
    by (vm_compute; split; congruence).
  split; [exact (conj H0 (conj H1 (conj H2 (conj H3 (conj H4 (conj H5 H6))))))|].
  exact (splitTextIntoChunks_covers char_tokenizer two_pages chunkSize chunkOverlap 160
           two_pages_chunks 1 "beta" (char_encode "beta") 3 H0 H1 H2 H3 H4 H5 H6).
Defined.

Lemma chunk_loop_some (fuel : nat) (tokens : list Z) (pg target ot start : Z) :
  0 < target - ot -> (Z.to_nat (Z.of_nat (length tokens) - start) < fuel)%nat ->
  exists cs, chunk_loop fuel tokens pg target ot start = Some cs.
Proof.
  intros Hst. revert start.
  induction fuel as [|f IH]; intros start Hf; [lia|].
  cbn [chunk_loop].
  destruct (Z.ltb_spec start (Z.of_nat (length tokens))); [|eexists; reflexivity].
  destruct (Z.leb_spec (Z.of_nat (length tokens)) (start + (target - ot)));
    [eexists; reflexivity|].
  destruct (IH (start + (target - ot))) as (cs & ->); [lia|].
  eexists. reflexivity.
Qed.

(** Whether [startTokenIndex += targetChunkSize - overlapTokens] leaves a
    page: a positive integral step, or a NaN or [+Infinity] start. *)
Definition step_advances (target : Z) (ot : floor_value) : bool :=
  match ot with
  | FInt o => o <? target
  | FPosInf => false
  | FNaN | FNegInf => true
  end.

Lemma chunk_page_advances (encode : string -> option (list Z)) (target : Z) (ot : floor_value)
    (p : string) (j : nat) :
  step_advances target ot = true ->
  chunk_page encode target ot p j <> Loops /\
  (chunk_page encode target ot p j = Throws <-> is_blank p = false /\ encode p = None).
Proof.
  intros Hs. unfold chunk_page. destruct (is_blank p).
  { split; [discriminate|]. split; [discriminate | intros [H _]; discriminate H]. }
  destruct (encode p) as [tokens|].
  2: { split; [discriminate|]. split; intros _; [split|]; reflexivity. }
  assert (Hr : forall cs : list chunk, Returns cs <> Loops /\
                 (Returns cs = Throws <-> false = false /\ @Some (list Z) tokens = None)).
  { intros cs. split; [discriminate|]. split; [discriminate | intros [_ H]; discriminate H]. }
  destruct ot as [o| | |]; cbn [step_advances] in Hs.
  - apply Z.ltb_lt in Hs.
    destruct (chunk_loop_some (S (length tokens)) tokens (Z.of_nat j + 1) target o 0)
      as (cs & ->); [lia | lia |]. apply Hr.
  - destruct (0 <? _); apply Hr.
  - discriminate Hs.
  - destruct (0 <? _); apply Hr.
Qed.

(** [splitTextIntoChunks] terminates on every text once the step
    [targetChunkSize - overlapTokens] advances: it returns the chunks, or
    throws exactly when the tokenizer refuses a non-blank page. *)
Theorem splitTextIntoChunks_terminates (encode : string -> option (list Z)) (text : string)
    (targetChunkSize : Z) (overlap : float) :
  step_advances targetChunkSize (overlapTokensOf targetChunkSize overlap) = true ->
  splitTextIntoChunks encode text targetChunkSize overlap <> Loops /\
  (splitTextIntoChunks encode text targetChunkSize overlap = Throws <->
   exists p, In p (split_pages text) /\ is_blank p = false /\ encode p = None).
Proof.
  intros Hs. unfold splitTextIntoChunks.
  generalize 0%nat. induction (split_pages text) as [|p ps IH]; intros i0.
  - split; [discriminate|]. split; [discriminate | intros (q & [] & _)].
  - cbn [pages_go].
    destruct (chunk_page_advances encode _ _ p i0 Hs) as [Hnl Hth].
    destruct (IH (S i0)) as [IHnl IHth].
    destruct (chunk_page encode _ _ p i0) as [cs1| |].
    + destruct (pages_go encode _ _ ps (S i0)) as [cs2| |]; cbn [run_map].
      * split; [discriminate|]. split; [discriminate|].
        intros (q & [<-|Hq] & Hb & He).
        -- pose proof (proj2 Hth (conj Hb He)) as Hx. discriminate Hx.
        -- assert (Hx : @Returns (list chunk) cs2 = Throws)
             by (apply IHth; exists q; auto). discriminate Hx.
      * split; [discriminate|]. split; [intros _|reflexivity].
        destruct (proj1 IHth eq_refl) as (q & Hq & Hb & He).
        exists q. split; [right; exact Hq | split; assumption].
      * congruence.
    + split; [discriminate|]. split; [intros _|reflexivity].
      destruct (proj1 Hth eq_refl) as [Hb He].
      exists p. split; [left; reflexivity | split; assumption].
    + congruence.
Qed.

Lemma splitTextIntoChunks_terminates_witness :
  step_advances chunkSize (overlapTokensOf chunkSize chunkOverlap) = true /\
  splitTextIntoChunks char_tokenizer two_pages chunkSize chunkOverlap <> Loops /\
  (splitTextIntoChunks char_tokenizer two_pages chunkSize chunkOverlap = Throws <->
   exists p, In p (split_pages two_pages) /\ is_blank p = false /\ char_tokenizer p = None).
Proof.
  assert (H : step_advances chunkSize (overlapTokensOf chunkSize chunkOverlap) = true)
    by (vm_compute; reflexivity).
  split; [exact H|].
  exact (splitTextIntoChunks_terminates char_tokenizer two_pages chunkSize chunkOverlap H).
Defined.

Lemma chunk_page_stuck (encode : string -> option (list Z)) (target : Z) (ot : floor_value)
    (p : string) (j : nat) (tokens : list Z) :
  step_advances target ot = false -> is_blank p = false -> encode p = Some tokens ->
  tokens <> [] -> chunk_page encode target ot p j = Loops.
Proof.
  intros Hs Hb He Hne. unfold chunk_page. rewrite Hb, He.
  assert (Hl : 0 < Z.of_nat (length tokens)) by (destruct tokens; [congruence | cbn; lia]).
  destruct ot as [o| | |]; cbn [step_advances] in Hs; try discriminate Hs.
  - apply Z.ltb_ge in Hs. rewrite chunk_loop_none by lia. reflexivity.
  - destruct (Z.ltb_spec 0 (Z.of_nat (length tokens))); [reflexivity | lia].
Qed.

Lemma chunk_page_not_throws (encode : string -> option (list Z)) (target : Z)
    (ot : floor_value) (p : string) (j : nat) :
  (is_blank p = false -> exists tokens, encode p = Some tokens) ->
  chunk_page encode target ot p j <> Throws.
Proof.
  intros He. unfold chunk_page. destruct (is_blank p); [discriminate|].
  destruct (He eq_refl) as (tokens & ->).
  destruct ot as [o| | |]; repeat (destruct (_ <? _)); try discriminate;
    destruct (chunk_loop _ _ _ _ _ _); discriminate.
Qed.

(** When the step does not advance (an overlap of [targetChunkSize] tokens
    or more, or [+Infinity]), the loop never leaves a non-blank page with at
    least one token: once the pages before it are tokenized, the call never
    returns. *)
Theorem splitTextIntoChunks_diverges (encode : string -> option (list Z)) (text : string)
    (targetChunkSize : Z) (overlap : float) (i : nat) (p : string) (tokens : list Z) :
  step_advances targetChunkSize (overlapTokensOf targetChunkSize overlap) = false ->
  nth_error (split_pages text) i = Some p -> is_blank p = false ->
  encode p = Some tokens -> tokens <> [] ->
  (forall j q, (j < i)%nat -> nth_error (split_pages text) j = Some q ->
     is_blank q = false -> exists ts, encode q = Some ts) ->
  splitTextIntoChunks encode text targetChunkSize overlap = Loops.
Proof.
  intros Hs Hi Hb He Hne Hbefore. unfold splitTextIntoChunks.
  generalize 0%nat. revert i Hi Hbefore.
  induction (split_pages text) as [|q ps IH]; intros i Hi Hbefore i0;
    [destruct i; discriminate|].
  cbn [pages_go]. destruct i as [|i].
  - cbn in Hi. injection Hi as ->.
    rewrite (chunk_page_stuck encode _ _ p i0 tokens Hs Hb He Hne). reflexivity.
  - assert (Hq : chunk_page encode targetChunkSize (overlapTokensOf targetChunkSize overlap)
                   q i0 <> Throws).
    { apply chunk_page_not_throws. apply (Hbefore 0%nat q); [lia | reflexivity]. }
    destruct (chunk_page encode _ _ q i0) as [cs1| |]; [|congruence|reflexivity].
    rewrite (IH i Hi); [reflexivity|].
    intros j q' Hj Hq'. apply (Hbefore (S j) q'); [lia | exact Hq'].
Qed.

Lemma splitTextIntoChunks_diverges_witness :
  (step_advances 800 (overlapTokensOf 800 1) = false /\
   nth_error (split_pages "hello") 0 = Some "hello" /\
   is_blank "hello" = false /\ char_tokenizer "hello" = Some (char_encode "hello") /\
   char_encode "hello" <> [] /\
   (forall j q, (j < 0)%nat -> nth_error (split_pages "hello") j = Some q ->
      is_blank q = false -> exists ts, char_tokenizer q = Some ts)) /\
  splitTextIntoChunks char_tokenizer "hello" 800 1 = Loops.
Proof.
  assert (H1 : step_advances 800 (overlapTokensOf 800 1) = false) by (vm_compute; reflexivity).
  assert (H2 : nth_error (split_pages "hello") 0 = Some "hello") by (vm_compute; reflexivity).
  assert (H3 : is_blank "hello" = false) by reflexivity.
  assert (H4 : char_tokenizer "hello" = Some (char_encode "hello")) by (vm_compute; reflexivity).
  assert (H5 : char_encode "hello" <> []) by (vm_compute; discriminate).
  assert (H6 : forall j q, (j < 0)%nat -> nth_error (split_pages "hello") j = Some q ->
                 is_blank q = false -> exists ts, char_tokenizer q = Some ts) by lia.
  split; [exact (conj H1 (conj H2 (conj H3 (conj H4 (conj H5 H6)))))|].
  exact (splitTextIntoChunks_diverges char_tokenizer "hello" 800 1 0 "hello"
           (char_encode "hello") H1 H2 H3 H4 H5 H6).
Defined.

End ChunkerLoop.

Module ChunkerText.
Import Js Chunker.

Fixpoint str_forall (f : ascii -> bool) (s : string) : bool :=
  match s with
  | EmptyString => true
  | String c r => f c && str_forall f r
  end.

Lemma str_forall_app (f : ascii -> bool) (a b : string) :
  str_forall f (a ++ b) = str_forall f a && str_forall f b.
Proof. induction a as [|c a IH]; simpl; [reflexivity|]. rewrite IH. apply andb_assoc. Qed.

Lemma string_app_nil_r (s : string) : s ++ "" = s.
Proof. induction s as [|c s IH]; simpl; congruence. Qed.

Lemma string_app_assoc (a b c : string) : (a ++ b) ++ c = a ++ b ++ c.
Proof. induction a as [|x a IH]; simpl; congruence. Qed.

Definition no_punct (c : ascii) : bool := negb (is_punct c).

Lemma digit_no_punct (n : Z) : no_punct (ascii_of_nat (48 + Z.to_nat (n mod 10))) = true.
Proof.
  assert (Hk : (Z.to_nat (n mod 10) < 10)%nat).
  { pose proof (Z.mod_pos_bound n 10 ltac:(lia)). lia. }
  revert Hk. generalize (Z.to_nat (n mod 10)) as k. intros k Hk.
  do 10 (destruct k as [|k]; [reflexivity|]). lia.
Qed.

Lemma digits_no_punct (fuel : nat) (n : Z) (acc : string) :
  str_forall no_punct acc = true -> str_forall no_punct (digits fuel n acc) = true.
Proof.
  revert n acc. induction fuel as [|f IH]; intros n acc H; [exact H|]. cbn [digits].
  assert (Hd : str_forall no_punct
                 (String (ascii_of_nat (48 + Z.to_nat (n mod 10))) acc) = true).
  { cbn [str_forall]. rewrite digit_no_punct. exact H. }
  destruct (n <? 10); [exact Hd | apply IH, Hd].
Qed.

Lemma number_to_string_no_punct (n : Z) : str_forall no_punct (number_to_string n) = true.
Proof.
  unfold number_to_string.
  pose proof (digits_no_punct (S (Z.to_nat (Z.log2 (Z.abs n)))) (Z.abs n) "" eq_refl) as H.
  destruct (n <? 0); [|exact H]. rewrite str_forall_app. rewrite H. reflexivity.
Qed.

Lemma join_no_punct (l : list string) :
  Forall (fun s => str_forall no_punct s = true) l ->
  str_forall no_punct (join " " l) = true.
Proof.
  induction 1 as [|x l Hx Hl IH]; [reflexivity|].
  destruct l as [|y l]; [exact Hx|].
  change (join " " (x :: y :: l)) with (x ++ " " ++ join " " (y :: l)).
  rewrite !str_forall_app, Hx, IH. reflexivity.
Qed.

Lemma replace_space_punct_id (s : string) :
  str_forall no_punct s = true -> replace_space_punct s = s.
Proof.
  induction s as [|sp t IH]; intros H; [reflexivity|].
  cbn [str_forall] in H. apply andb_prop in H as [_ Ht].
  destruct t as [|c r]; [reflexivity|].
  cbn [replace_space_punct].
  assert (Hc : is_punct c = false).
  { cbn [str_forall] in Ht. apply andb_prop in Ht as [Hc _]. unfold no_punct in Hc.
    destruct (is_punct c); [discriminate | reflexivity]. }
  rewrite Hc, andb_false_r. f_equal. apply IH, Ht.
Qed.

(** [decode] prints each token id as a decimal number, which contains no
    punctuation, so the replacement [/ ([.,;:!?])/g] never fires: the
    text of a chunk is the token ids joined by single spaces. *)
Theorem decode_is_join (tokens : list Z) :
  decode tokens = join " " (map number_to_string tokens).
Proof.
  unfold decode. apply replace_space_punct_id, join_no_punct.
  induction tokens as [|t ts IH]; constructor; [apply number_to_string_no_punct | exact IH].
Qed.

Lemma split_go_plain (fuel : nat) (cur s : string) :
  str_forall (fun c => negb (is_ff c || is_nl c)) s = true ->
  split_go fuel cur s = [cur ++ s].
Proof.
  revert cur s. induction fuel as [|f IH]; intros cur s H; [reflexivity|].
  destruct s as [|c r]; cbn [split_go].
  - rewrite string_app_nil_r. reflexivity.
  - cbn [str_forall] in H. apply andb_prop in H as [Hc Hr].
    assert (Hm : sep_match (String c r) = None).
    { cbn [sep_match]. destruct (is_ff c), (is_nl c); try discriminate Hc. reflexivity. }
    rewrite Hm, IH by exact Hr. rewrite string_app_assoc. reflexivity.
Qed.

(** A text with no form feed and no line feed is a single page. *)
Theorem split_pages_no_break (text : string) :
  str_forall (fun c => negb (is_ff c || is_nl c)) text = true ->
  split_pages text = [text].
Proof. intros H. unfold split_pages. rewrite split_go_plain by exact H. reflexivity. Qed.

Lemma split_pages_no_break_witness :
  str_forall (fun c => negb (is_ff c || is_nl c)) "Revenue grew 5% in Q3." = true /\
  split_pages "Revenue grew 5% in Q3." = ["Revenue grew 5% in Q3."].
Proof.
  assert (H : str_forall (fun c => negb (is_ff c || is_nl c)) "Revenue grew 5% in Q3." = true)
    by reflexivity.
  split; [exact H | exact (split_pages_no_break _ H)].
Defined.

End ChunkerText.

(* ----------------------------------------------------------------- *)
(** ** Vector index and retrieval: which rows can come back *)

Module RetrievalScope.
Import Embedding Db Index Retrieval.

Lemma opt_eqb_eq (a b : option string) : opt_eqb a b = true -> a = b.
Proof.
  destruct a, b; simpl; try discriminate; [|reflexivity].
  intros H. apply String.eqb_eq in H. congruence.
Qed.

Lemma in_filter_bool {A} (P : A -> bool) (l : list A) (x : A) :
  In x (filter (fun y => Is_true (P y)) l) -> In x l /\ P x = true.
Proof.
  intros H. apply list_elem_of_In, list_elem_of_filter in H as [HP H].
  split; [apply list_elem_of_In, H | apply Is_true_eq_true, HP].
Qed.

Lemma doc_ids_where_spec (d : db) (P : document -> bool) (id : string) :
  In id (doc_ids_where d P) ->
  exists doc, In doc (documents d) /\ doc_id doc = id /\ P doc = true.
Proof.
  unfold doc_ids_where. intros H. apply in_map_iff in H as (doc & <- & H).
  apply in_filter_bool in H as [H HP]. exists doc. auto.
Qed.

Ltac scope_cases H :=
  unfold resolve_scope in H; cbv zeta in H;
  match type of H with
  | context [truthy (folderId ?o)] =>
      let Ef := fresh "Ef" in destruct (truthy (folderId o)) eqn:Ef
  end; cbv beta iota in H;
  repeat (match type of H with
          | context [match ?x with _ => _ end] =>
              lazymatch x with
              | Some _ => fail
              | None => fail
              | _ :: _ => fail
              | [] => fail
              | true => fail
              | false => fail
              | _ => let E := fresh "E" in destruct x eqn:E
              end
          end; cbv beta iota in H);
  try discriminate H; injection H as <-.

(** The options [findRelevantDocuments] passes to [Chunk.findSimilar]. *)
Lemma resolve_scope_org (d : db) (u : user) (o : rd_options) (so : search_options) :
  resolve_scope d u o = SearchWith so -> orgId so = user_orgId u.
Proof. intros H. scope_cases H; reflexivity. Qed.

Lemma resolve_scope_folder (d : db) (u : user) (o : rd_options) (so : search_options) :
  resolve_scope d u o = SearchWith so -> truthy (folderId o) = true ->
  exists ids, documentIds so = Some ids /\ ids <> [] /\
    forall id, In id ids ->
      In id (doc_ids_where d (fun doc => opt_eqb (doc_folderId doc) (folderId o)
                                         && opt_eqb (doc_orgId doc) (user_orgId u))).
Proof.
  intros H Hf. scope_cases H; try congruence;
    (eexists; split; [reflexivity|]; split; [discriminate|]);
    match goal with
    | E : filter _ _ = _ |- _ => rewrite <- E; intros id Hid; apply in_filter_bool in Hid; apply Hid
    | |- _ => intros id Hid; exact Hid
    end.
Qed.

Lemma resolve_scope_tags (d : db) (u : user) (o : rd_options) (so : search_options) :
  resolve_scope d u o = SearchWith so -> tags o <> [] ->
  exists ids, documentIds so = Some ids /\ ids <> [] /\
    forall id, In id ids ->
      In id (doc_ids_where d (fun doc =>
               opt_eqb (doc_orgId doc) (user_orgId u)
               && (if truthy (folderId o) then opt_eqb (doc_folderId doc) (folderId o) else true)
               && overlaps (doc_tags doc) (tags o))).
Proof.
  intros H Ht. scope_cases H; try congruence;
    (eexists; split; [reflexivity|]; split; [discriminate|]);
    match goal with
    | E : filter _ _ = _ |- _ =>
        rewrite <- E; intros id Hid; apply in_filter_bool in Hid as [_ Hid];
        apply existsb_exists in Hid as (x & Hx & Heq); apply String.eqb_eq in Heq;
        subst x; exact Hx
    | |- _ => intros id Hid; exact Hid
    end.
Qed.

Lemma resolve_scope_base (d : db) (u : user) (o : rd_options) (so : search_options) :
  resolve_scope d u o = SearchWith so ->
  limit so = rd_limit o /\ threshold so = rd_threshold o.
Proof. intros H. scope_cases H; split; reflexivity. Qed.

Lemma resolve_scope_unfiltered (d : db) (u : user) (o : rd_options) (so : search_options) :
  resolve_scope d u o = SearchWith so -> truthy (folderId o) = false -> tags o = [] ->
  documentIds so = None.
Proof. intros H Hf Ht. scope_cases H; first [reflexivity | congruence]. Qed.

(** Scope of [findRelevantDocuments]: the search it runs uses the caller's
    [limit] and [threshold] and the caller's organization as [orgId].  With
    a [folderId], [documentIds] is a non-empty list of ids of documents of
    that folder in the caller's organization; with [tags], of documents of
    the caller's organization sharing a tag; with neither, there is no
    [documentIds] filter. *)
Theorem findRelevantDocuments_search_scope (d : db) (u : user) (o : rd_options)
    (so : search_options) :
  resolve_scope d u o = SearchWith so ->
  limit so = rd_limit o /\ threshold so = rd_threshold o /\ orgId so = user_orgId u /\
  (truthy (folderId o) = true ->
     exists ids, documentIds so = Some ids /\ ids <> [] /\
       forall id, In id ids ->
         exists fdoc, In fdoc (documents d) /\ doc_id fdoc = id /\
           doc_folderId fdoc = folderId o /\ doc_orgId fdoc = user_orgId u) /\
  (tags o <> [] ->
     exists ids, documentIds so = Some ids /\ ids <> [] /\
       forall id, In id ids ->
         exists tdoc, In tdoc (documents d) /\ doc_id tdoc = id /\
           overlaps (doc_tags tdoc) (tags o) = true /\ doc_orgId tdoc = user_orgId u) /\
  (truthy (folderId o) = false -> tags o = [] -> documentIds so = None).
Proof.
  intros Es.
  destruct (resolve_scope_base d u o so Es) as [Hl Ht].
  split; [exact Hl|]. split; [exact Ht|].
  split; [exact (resolve_scope_org d u o so Es)|]. split; [|split].
  - intros Hfo. destruct (resolve_scope_folder d u o so Es Hfo) as (ids & Hs & Hne & Hin).
    exists ids. split; [exact Hs|]. split; [exact Hne|].
    intros id Hid. apply Hin, doc_ids_where_spec in Hid as (fdoc & Hf1 & Hf2 & Hf3).
    apply andb_prop in Hf3 as [Hf3 Hf4].
    exists fdoc. split; [exact Hf1|]. split; [exact Hf2|].
    split; apply opt_eqb_eq; assumption.
  - intros Hto. destruct (resolve_scope_tags d u o so Es Hto) as (ids & Hs & Hne & Hin).
    exists ids. split; [exact Hs|]. split; [exact Hne|].
    intros id Hid. apply Hin, doc_ids_where_spec in Hid as (tdoc & Ht1 & Ht2 & Ht3).
    apply andb_prop in Ht3 as [Ht3 Ht5]. apply andb_prop in Ht3 as [Ht3 _].
    exists tdoc. split; [exact Ht1|]. split; [exact Ht2|].
    split; [exact Ht5 | apply opt_eqb_eq, Ht3].
  - apply (resolve_scope_unfiltered d u o so Es).
Qed.

Lemma findRelevantDocuments_search_scope_witness :
  resolve_scope Fixtures.db_tie Fixtures.u1 Fixtures.default_options
    = SearchWith Fixtures.search_opts /\
  limit Fixtures.search_opts = rd_limit Fixtures.default_options /\
  threshold Fixtures.search_opts = rd_threshold Fixtures.default_options /\
  orgId Fixtures.search_opts = user_orgId Fixtures.u1 /\
  (truthy (folderId Fixtures.default_options) = true ->
     exists ids, documentIds Fixtures.search_opts = Some ids /\ ids <> [] /\
       forall id, In id ids ->
         exists fdoc, In fdoc (documents Fixtures.db_tie) /\ doc_id fdoc = id /\
           doc_folderId fdoc = folderId Fixtures.default_options /\
           doc_orgId fdoc = user_orgId Fixtures.u1) /\
  (tags Fixtures.default_options <> [] ->
     exists ids, documentIds Fixtures.search_opts = Some ids /\ ids <> [] /\
       forall id, In id ids ->
         exists tdoc, In tdoc (documents Fixtures.db_tie) /\ doc_id tdoc = id /\
           overlaps (doc_tags tdoc) (tags Fixtures.default_options) = true /\
           doc_orgId tdoc = user_orgId Fixtures.u1) /\
  (truthy (folderId Fixtures.default_options) = false -> tags Fixtures.default_options = [] ->
     documentIds Fixtures.search_opts = None).
Proof.
  assert (H : resolve_scope Fixtures.db_tie Fixtures.u1 Fixtures.default_options
              = SearchWith Fixtures.search_opts) by (vm_compute; reflexivity).
  split; [exact H|].
  exact (findRelevantDocuments_search_scope _ _ _ _ H).
Defined.

End RetrievalScope.

(* ----------------------------------------------------------------- *)
(** ** Chat: [processMessage] with its collaborators *)

Module ChatFlow.
Import Embedding Db Index Retrieval Chat.

Lemma rd_resolved_shape (cosine_distance : vec -> vec -> Q)
    (openai_embed : string -> api_outcome) (rnd : nat -> float) (d : db)
    (query userId : string) (o : rd_options) (v : rd_value) :
  findRelevantDocuments cosine_distance openai_embed rnd d query userId o (Resolved v) ->
  v = RDArray [] \/ (exists p, v = RDRow p) \/ v = RDUndefined.
Proof.
  unfold findRelevantDocuments. intros [H|H]; [discriminate H|].
  destruct (find_user d userId) as [u|]; [|discriminate].
  destruct (generateEmbedding openai_embed rnd query) as [qe|e]; [|discriminate].
  destruct (resolve_scope d u o) as [|so].
  - injection H as <-. left. reflexivity.
  - destruct H as (res & _ & Hr).
    destruct res as [[p|]|e]; simpl in Hr; try discriminate; injection Hr as Hr; subst v.
    + right. left. exists p. reflexivity.
    + right. right. reflexivity.
Qed.

(** [findRelevantDocuments] never resolves to a non-empty array: scope
    resolution returns [[]], and [Chunk.findSimilar] returns the first row
    of its result ([const [results] = ...]) or [undefined]. *)
Theorem findRelevantDocuments_resolved_shape (cosine_distance : vec -> vec -> Q)
    (openai_embed : string -> api_outcome) (rnd : nat -> float) (d : db)
    (query userId : string) (o : rd_options) (v : rd_value) :
  findRelevantDocuments cosine_distance openai_embed rnd d query userId o (Resolved v) ->
  v = RDArray [] \/ (exists p, v = RDRow p) \/ v = RDUndefined.
Proof. exact (rd_resolved_shape cosine_distance openai_embed rnd d query userId o v). Qed.

Lemma findRelevantDocuments_resolved_shape_witness :
  findRelevantDocuments Fixtures.dist_equal RetrievalFacts.embed_no_field Fixtures.rnd_half
    Fixtures.db_tie "What is the monthly growth trend?" "u1" Fixtures.default_options
    (Resolved RDUndefined) /\
  (RDUndefined = RDArray [] \/ (exists p, RDUndefined = RDRow p) \/ RDUndefined = RDUndefined).
Proof.
  assert (H : findRelevantDocuments Fixtures.dist_equal RetrievalFacts.embed_no_field
                Fixtures.rnd_half Fixtures.db_tie "What is the monthly growth trend?" "u1"
                Fixtures.default_options (Resolved RDUndefined)).
  { right. simpl. exists (Resolved None). split; [|reflexivity].
    exact IndexFacts.db_tie_undefined. }
  split; [exact H|].
  exact (findRelevantDocuments_resolved_shape _ _ _ _ _ _ _ _ H).
Defined.

Lemma processMessage_resolved_body (systemPrompt : string) (e : chat_env) (st st' : chat_state)
    (threadId userId userMessage : string) (v : message * list citation) :
  processMessage systemPrompt e st threadId userId userMessage = (st', Resolved v) ->
  processMessage_body systemPrompt e st threadId userId userMessage = (st', Resolved v).
Proof.
  unfold processMessage.
  destruct (processMessage_body systemPrompt e st threadId userId userMessage) as [s [w|err]].
  - exact id.
  - destruct (this_saveMessage _ _ _ _ _); discriminate.
Qed.

Lemma find_thread_some (st : chat_state) (threadId userId : string) (t : thread) :
  List.find (fun t => String.eqb (t_id t) threadId && String.eqb (t_userId t) userId)
            (threads st) = Some t ->
  In t (threads st) /\ t_id t = threadId /\ t_userId t = userId.
Proof.
  intros H. apply find_some in H as [Hin Ht]. apply andb_prop in Ht as [H1 H2].
  apply String.eqb_eq in H1, H2. auto.
Qed.

Lemma extractCitations_nil (response : string) : extractCitations response [] = [].
Proof.
  unfold extractCitations. induction (citation_refs response) as [|r rs IH]; [reflexivity|].
  simpl. unfold extract_step at 2. simpl length.
  destruct (0 <=? parse_digits r 0 - 1) eqn:E1, (parse_digits r 0 - 1 <? Z.of_nat 0) eqn:E2;
    try exact IH.
  apply Z.leb_le in E1. apply Z.ltb_lt in E2. lia.
Qed.

(** A successful [processMessage] found the thread owned by [userId],
    and pushed two messages to the in-memory array: the user's message,
    then the assistant's reply with the completion's text and the
    citations returned, with consecutive ids; the tables are unchanged. *)
Theorem processMessage_success_appends (systemPrompt : string) (e : chat_env)
    (st st' : chat_state) (threadId userId userMessage : string)
    (m : message) (cits : list citation) :
  processMessage systemPrompt e st threadId userId userMessage = (st', Resolved (m, cits)) ->
  (exists t, In t (threads st) /\ t_id t = threadId /\ t_userId t = userId) /\
  (exists msgs, completion e msgs = Resolved (Some (m_content m))) /\
  mem_messages st' =
    app (mem_messages st)
      [mkMessage (Js.number_to_string (messageId st)) userMessage "user" threadId None (clock st);
       m] /\
  m = mkMessage (Js.number_to_string (messageId st + 1)) (m_content m) "assistant" threadId
                (Some cits) (clock st) /\
  messageId st' = messageId st + 2 /\ threads st' = threads st /\
  db_messages st' = db_messages st.
Proof.
  intros H. apply processMessage_resolved_body in H.
  unfold processMessage_body, this_saveMessage in H.
  destruct (List.find _ (threads st)) as [t|] eqn:Ht; [|discriminate].
  apply find_thread_some in Ht. simpl in H.
  destruct (negb (findAll_ok e)); [discriminate|].
  destruct (retrieval e) as [rd|err]; [|discriminate].
  destruct (prompt_messages _ _ _ _) as [msgs|]; [|discriminate].
  destruct (completion e msgs) as [[txt|]|err] eqn:Hc; try discriminate.
  destruct (extractCitations_js txt rd) as [cs|]; [|discriminate].
  simpl in H. injection H as <- <- <-. simpl.
  split; [exists t; exact Ht|]. split; [exists msgs; exact Hc|].
  rewrite <- app_assoc. repeat split. lia.
Qed.

Definition env_reply : chat_env :=
  mkChatEnv true (Resolved (RDArray [])) (fun _ => Resolved (Some "No documents match.")).

Definition reply_msg : message :=
  mkMessage "2" "No documents match." "assistant" "t1" (Some []) 100.

Lemma processMessage_success_appends_witness :
  let st' := fst (processMessage Fixtures.ragSystemPrompt env_reply Fixtures.chat_st12 "t1" "u1" "hi") in
  processMessage Fixtures.ragSystemPrompt env_reply Fixtures.chat_st12 "t1" "u1" "hi"
    = (st', Resolved (reply_msg, [])) /\
  ((exists t, In t (threads Fixtures.chat_st12) /\ t_id t = "t1" /\ t_userId t = "u1") /\
   (exists msgs, completion env_reply msgs = Resolved (Some (m_content reply_msg))) /\
   mem_messages st' =
     app (mem_messages Fixtures.chat_st12)
       [mkMessage (Js.number_to_string (messageId Fixtures.chat_st12)) "hi" "user" "t1" None
                  (clock Fixtures.chat_st12); reply_msg] /\
   reply_msg = mkMessage (Js.number_to_string (messageId Fixtures.chat_st12 + 1))
                 (m_content reply_msg) "assistant" "t1" (Some []) (clock Fixtures.chat_st12) /\
   messageId st' = messageId Fixtures.chat_st12 + 2 /\ threads st' = threads Fixtures.chat_st12 /\
   db_messages st' = db_messages Fixtures.chat_st12).
Proof.
  intros st'.
  assert (H : processMessage Fixtures.ragSystemPrompt env_reply Fixtures.chat_st12 "t1" "u1" "hi"
              = (st', Resolved (reply_msg, []))) by (vm_compute; reflexivity).
  split; [exact H|].
  exact (processMessage_success_appends _ _ _ _ _ _ _ _ _ H).
Defined.




(** When the thread is found and the history query succeeds, a row
    object from [findRelevantDocuments] makes [generatePrompt] throw
    ([chunks.map] is not a function): [processMessage] rejects with a
    [TypeError]. *)
Theorem processMessage_row_type_error (systemPrompt : string) (e : chat_env)
    (st : chat_state) (threadId userId userMessage : string) (p : passage) :
  (exists t, In t (threads st) /\ t_id t = threadId /\ t_userId t = userId) ->
  findAll_ok e = true -> retrieval e = Resolved (RDRow p) ->
  snd (processMessage systemPrompt e st threadId userId userMessage) = Rejected TypeError.
Proof.
  intros (t & Hin & H1 & H2) Hok Hr.
  destruct (List.find (fun t => String.eqb (t_id t) threadId && String.eqb (t_userId t) userId)
                      (threads st)) as [t'|] eqn:Ht.
  - unfold processMessage, processMessage_body. rewrite Ht. simpl.
    rewrite Hok, Hr. reflexivity.
  - apply (find_none _ _ Ht) in Hin. rewrite H1, H2, !String.eqb_refl in Hin. discriminate.
Qed.

Definition env_row : chat_env :=
  mkChatEnv true (Resolved (RDRow IndexFacts.p1)) (fun _ => Resolved (Some "See [Document 1: Report, Page 1].")).

Lemma processMessage_row_type_error_witness :
  (exists t, In t (threads Fixtures.chat_st12) /\ t_id t = "t1" /\ t_userId t = "u1") /\
  findAll_ok env_row = true /\ retrieval env_row = Resolved (RDRow IndexFacts.p1) /\
  snd (processMessage Fixtures.ragSystemPrompt env_row Fixtures.chat_st12 "t1" "u1" "growth?")
    = Rejected TypeError.
Proof.
  assert (H : exists t, In t (threads Fixtures.chat_st12) /\ t_id t = "t1" /\ t_userId t = "u1").
  { exists (mkThread "t1" "u1"). simpl. auto. }
  split; [exact H|]. split; [reflexivity|]. split; [reflexivity|].
  exact (processMessage_row_type_error Fixtures.ragSystemPrompt env_row Fixtures.chat_st12
           "t1" "u1" "growth?" IndexFacts.p1 H eq_refl eq_refl).
Defined.

(** With the retrieval result [findRelevantDocuments] gives, a
    successful [processMessage] is one where retrieval found nothing
    ([[]] or [undefined]), and its reply carries no citation. *)
Theorem processMessage_reply_uncited (systemPrompt : string) (cosine_distance : vec -> vec -> Q)
    (openai_embed : string -> api_outcome) (rnd : nat -> float) (d : db) (o : rd_options)
    (e : chat_env) (st st' : chat_state) (threadId userId userMessage : string)
    (m : message) (cits : list citation) :
  findRelevantDocuments cosine_distance openai_embed rnd d userMessage userId o (retrieval e) ->
  processMessage systemPrompt e st threadId userId userMessage = (st', Resolved (m, cits)) ->
  cits = [] /\ (retrieval e = Resolved (RDArray []) \/ retrieval e = Resolved RDUndefined).
Proof.
  intros Hrd H. apply processMessage_resolved_body in H.
  unfold processMessage_body, this_saveMessage in H.
  destruct (List.find _ (threads st)); [|discriminate]. simpl in H.
  destruct (negb (findAll_ok e)); [discriminate|].
  destruct (retrieval e) as [rd|err]; [|discriminate].
  apply rd_resolved_shape in Hrd as [->|[[p ->]| ->]].
  - destruct (prompt_messages _ _ _ _) as [msgs|]; [|discriminate].
    destruct (completion e msgs) as [[txt|]|err]; try discriminate.
    simpl in H. rewrite extractCitations_nil in H. simpl in H.
    injection H as _ _ <-. split; [reflexivity | left; reflexivity].
  - discriminate.
  - destruct (prompt_messages _ _ _ _) as [msgs|]; [|discriminate].
    destruct (completion e msgs) as [[txt|]|err]; try discriminate.
    simpl in H. destruct (citation_refs txt); [|discriminate].
    simpl in H. injection H as _ _ <-. split; [reflexivity | right; reflexivity].
Qed.

Definition folder_options : rd_options :=
  mkRdOptions (Some "f9") [] Fixtures.maxChunks Fixtures.similarityThreshold.

Lemma processMessage_reply_uncited_witness :
  let st' := fst (processMessage Fixtures.ragSystemPrompt env_reply Fixtures.chat_st12 "t1" "u1" "hi") in
  findRelevantDocuments Fixtures.dist_equal Fixtures.embed_ok Fixtures.rnd_half Fixtures.db_tie
    "hi" "u1" folder_options (retrieval env_reply) /\
  processMessage Fixtures.ragSystemPrompt env_reply Fixtures.chat_st12 "t1" "u1" "hi"
    = (st', Resolved (reply_msg, [])) /\
  ([] : list citation) = [] /\
  (retrieval env_reply = Resolved (RDArray []) \/ retrieval env_reply = Resolved RDUndefined).
Proof.
  intros st'.
  assert (H1 : findRelevantDocuments Fixtures.dist_equal Fixtures.embed_ok Fixtures.rnd_half
                 Fixtures.db_tie "hi" "u1" folder_options (retrieval env_reply))
    by (right; vm_compute; reflexivity).
  assert (H2 : processMessage Fixtures.ragSystemPrompt env_reply Fixtures.chat_st12 "t1" "u1" "hi"
              = (st', Resolved (reply_msg, []))) by (vm_compute; reflexivity).
  split; [exact H1|]. split; [exact H2|].
  exact (processMessage_reply_uncited _ _ _ _ _ _ _ _ _ _ _ _ _ _ H1 H2).
Defined.

End ChatFlow.

(* ----------------------------------------------------------------- *)
(** ** Ingestion: what [processDocument] writes *)

Module IngestionRows.
Import Embedding Db Chunker Ingestion.

(** [d'] differs from [d] only in the status of [documentId] and in rows
    of [documentId] appended to [Chunks]. *)
Definition only_own (documentId : string) (d d' : db) : Prop :=
  users d' = users d /\
  map doc_id (documents d') = map doc_id (documents d) /\
  (forall id, id <> documentId -> status_of d' id = status_of d id) /\
  exists rows, chunks d' = app (chunks d) rows /\
               Forall (fun r => ch_documentId r = documentId) rows.

Lemma only_own_refl (documentId : string) (d : db) : only_own documentId d d.
Proof.
  split; [reflexivity|]. split; [reflexivity|]. split; [reflexivity|].
  exists []. rewrite app_nil_r. split; [reflexivity | constructor].
Qed.

Lemma only_own_set_status (documentId : string) (s : status) (d d' : db) :
  only_own documentId d d' -> only_own documentId d (set_status d' documentId s).
Proof.
  intros (Hu & Hids & Hst & rows & Hc & Hr).
  split; [exact Hu|]. split.
  - simpl. rewrite map_map, <- Hids. apply map_ext. intros x.
    destruct (String.eqb (doc_id x) documentId); reflexivity.
  - split; [|exists rows; split; [exact Hc | exact Hr]].
    intros id Hne. rewrite <- (Hst id Hne). unfold status_of, find_document. simpl.
    clear - Hne. induction (documents d') as [|x l IH]; [reflexivity|]. simpl.
    destruct (String.eqb (doc_id x) documentId) eqn:E; simpl.
    + apply String.eqb_eq in E. rewrite E.
      assert (Hf : String.eqb documentId id = false) by (apply String.eqb_neq; congruence).
      rewrite Hf. exact IH.
    + destruct (String.eqb (doc_id x) id); [reflexivity | exact IH].
Qed.

Lemma only_own_add_chunks (documentId : string) (d d' : db) (rows : list chunkRow) :
  only_own documentId d d' -> Forall (fun r => ch_documentId r = documentId) rows ->
  only_own documentId d (add_chunks d' rows).
Proof.
  intros (Hu & Hids & Hst & rows0 & Hc & Hr) Hrows.
  split; [exact Hu|]. split; [exact Hids|]. split.
  - intros id Hne. rewrite <- (Hst id Hne). reflexivity.
  - exists (app rows0 rows). simpl. rewrite Hc, app_assoc. split; [reflexivity|].
    apply Forall_app. split; assumption.
Qed.

Lemma only_own_on_error (e : env) (documentId : string) (err : ingest_error) (d d' : db) :
  only_own documentId d d' -> only_own documentId d (fst (on_error e d' documentId err)).
Proof.
  intros H. unfold on_error.
  destruct (find_document d' documentId); [|exact H].
  destruct (status_write_ok e Error); [apply only_own_set_status|]; exact H.
Qed.

Lemma chunk_task_row (e : env) (documentId : string) (i : nat) (c : chunk) (r : chunkRow) :
  chunk_task e documentId i c = Resolved r ->
  ch_id r = uuid e i /\ ch_documentId r = documentId /\ ch_content r = text c /\
  ch_page r = Some (page c) /\ ch_tokenCount r = tokenCount c /\
  ch_startIndex r = startIndex c /\ ch_endIndex r = endIndex c.
Proof.
  unfold chunk_task.
  destruct (generateEmbedding _ _ _) as [[emb|]|err]; try discriminate.
  destruct (create_ok e i); [|discriminate].
  intros H. injection H as <-. repeat split.
Qed.

Lemma resolved_rows_imap (Q : chunkRow -> Prop)
    (f : nat -> chunk -> promise chunkRow ingest_error) (cs : list chunk) :
  (forall i c r, f i c = Resolved r -> Q r) ->
  Forall Q (resolved_rows (imap f cs)).
Proof.
  revert f. induction cs as [|c cs IH]; intros f Hf; [constructor|].
  rewrite imap_cons. simpl.
  destruct (f 0%nat c) as [r|err] eqn:E; simpl.
  - constructor; [exact (Hf _ _ _ E)|].
    apply (IH (fun i => f (S i))). intros i c' r'. apply Hf.
  - apply (IH (fun i => f (S i))). intros i c' r'. apply Hf.
Qed.


(** [processDocument] writes nothing but the status of its own document
    and rows of that document appended to [Chunks]: the users, the set of
    documents, the status of every other document and every existing row
    are kept, whatever fails. *)
Theorem processDocument_only_own (encode : string -> option (list Z)) (e : env) (d : db)
    (documentId text : string) :
  only_own documentId d (fst (processDocument encode e d documentId text)).
Proof.
  unfold processDocument.
  destruct (find_document d documentId).
  2: { apply only_own_on_error, only_own_refl. }
  destruct (negb (status_write_ok e Processing)).
  { apply only_own_on_error, only_own_refl. }
  assert (H1 := only_own_set_status documentId Processing d d (only_own_refl documentId d)).
  destruct (splitTextIntoChunks encode text chunkSize chunkOverlap) as [cs| |];
    [| apply only_own_on_error, H1 | exact H1].
  assert (H2 : only_own documentId d
                 (add_chunks (set_status d documentId Processing)
                    (resolved_rows (imap (chunk_task e documentId) cs)))).
  { apply only_own_add_chunks; [exact H1|].
    apply (resolved_rows_imap (fun r => ch_documentId r = documentId)).
    intros i c r H. apply (chunk_task_row _ _ _ _ _ H). }
  destruct (first_rejection _); [apply only_own_on_error, H2|].
  destruct (status_write_ok e Ready); [apply only_own_set_status, H2|].
  apply only_own_on_error, H2.
Qed.

Lemma snd_on_error (e : env) (d : db) (documentId : string) (err : ingest_error) :
  snd (on_error e d documentId err) = Threw err.
Proof.
  unfold on_error. destruct (find_document d documentId); [|reflexivity].
  destruct (status_write_ok e Error); reflexivity.
Qed.


(** Ingestion where every embedding call and every write succeeds. *)
Definition env_all_ok : env :=
  mkEnv (fun _ => Fixtures.embed_ok) (fun _ => Fixtures.rnd_half) (fun _ => true)
        (fun i => "chunk-" ++ Js.number_to_string (Z.of_nat i)) (fun _ => true).


(** When the tokenizer throws on the text (a special token such as
    [<|endoftext|>] in a non-blank page), [processDocument] rejects with
    that error before any chunk task runs: no row is added, and the
    document ends in status [Error] when that write succeeds. *)
Theorem processDocument_encode_throws (encode : string -> option (list Z)) (e : env) (d : db)
    (documentId text : string) (doc0 : document) :
  find_document d documentId = Some doc0 -> status_write_ok e Processing = true ->
  splitTextIntoChunks encode text chunkSize chunkOverlap = Throws ->
  snd (processDocument encode e d documentId text) = Threw EncodeThrew /\
  chunks (fst (processDocument encode e d documentId text)) = chunks d /\
  (status_write_ok e Error = true ->
   status_of (fst (processDocument encode e d documentId text)) documentId = Some Error).
Proof.
  intros Hd Hp Hs. unfold processDocument. rewrite Hd, Hp, Hs. cbn [negb].
  split; [apply snd_on_error|]. split.
  - rewrite IngestionFacts.chunks_on_error. reflexivity.
  - intros He.
    destruct (IngestionFacts.find_document_set_status d documentId Processing doc0 Hd)
      as [_ [doc1 Hd1]].
    exact (IngestionFacts.on_error_status e _ documentId doc1 EncodeThrew Hd1 He).
Qed.

Definition special_text : string := "Intro.<|endoftext|>".

Lemma processDocument_encode_throws_witness :
  (find_document Fixtures.db_fresh "d1" = Some (Fixtures.doc "d1" Pending) /\
   status_write_ok env_all_ok Processing = true /\
   splitTextIntoChunks char_tokenizer special_text chunkSize chunkOverlap = Throws) /\
  snd (processDocument char_tokenizer env_all_ok Fixtures.db_fresh "d1" special_text)
    = Threw EncodeThrew /\
  chunks (fst (processDocument char_tokenizer env_all_ok Fixtures.db_fresh "d1" special_text))
    = chunks Fixtures.db_fresh /\
  (status_write_ok env_all_ok Error = true ->
   status_of (fst (processDocument char_tokenizer env_all_ok Fixtures.db_fresh "d1" special_text))
     "d1" = Some Error).
Proof.
  assert (H1 : find_document Fixtures.db_fresh "d1" = Some (Fixtures.doc "d1" Pending))
    by reflexivity.
  assert (H2 : status_write_ok env_all_ok Processing = true) by reflexivity.
  assert (H3 : splitTextIntoChunks char_tokenizer special_text chunkSize chunkOverlap = Throws)
    by (vm_compute; reflexivity).
  split; [exact (conj H1 (conj H2 H3))|].
  exact (processDocument_encode_throws char_tokenizer env_all_ok Fixtures.db_fresh "d1"
           special_text (Fixtures.doc "d1" Pending) H1 H2 H3).
Defined.

End IngestionRows.

(* ----------------------------------------------------------------- *)
(** ** [deleteDocumentEmbeddings] *)

Module Deletion.
Import Embedding Db.

Inductive destroy_error := QueryFailed.

(** [deleteDocumentEmbeddings(documentId)]: [Chunk.destroy({ where:
    { documentId } })], one [DELETE] statement, resolving to the number of
    rows deleted; a failing query leaves the table as it was and the error
    is rethrown. *)
Definition deleteDocumentEmbeddings (destroy_ok : bool) (d : db) (documentId : string)
  : db * promise Z destroy_error :=
  if destroy_ok then
    (mkDb (users d) (documents d)
          (List.filter (fun c => negb (String.eqb (ch_documentId c) documentId)) (chunks d)),
     Resolved (Z.of_nat (length (List.filter (fun c => String.eqb (ch_documentId c) documentId)
                                             (chunks d)))))
  else (d, Rejected QueryFailed).

Lemma filter_length_split {A} (f : A -> bool) (l : list A) :
  (length (List.filter f l) + length (List.filter (fun x => negb (f x)) l) = length l)%nat.
Proof.
  induction l as [|x l IH]; [reflexivity|]. simpl.
  destruct (f x); simpl; lia.
Qed.

(** After [deleteDocumentEmbeddings] no row of [documentId] is left, every
    row of another document is kept in its order, users and documents are
    untouched, and the count it resolves to is the number of rows that
    went away. *)
Theorem deleteDocumentEmbeddings_spec (d : db) (documentId : string) :
  let '(d', r) := deleteDocumentEmbeddings true d documentId in
  users d' = users d /\ documents d' = documents d /\
  (forall c, In c (chunks d') <-> In c (chunks d) /\ ch_documentId c <> documentId) /\
  exists n, r = Resolved n /\ Z.of_nat (length (chunks d)) = Z.of_nat (length (chunks d')) + n.
Proof.
  simpl. split; [reflexivity|]. split; [reflexivity|]. split.
  - intros c. rewrite filter_In, negb_true_iff, String.eqb_neq. reflexivity.
  - eexists. split; [reflexivity|].
    rewrite <- (filter_length_split (fun c => String.eqb (ch_documentId c) documentId)). lia.
Qed.

End Deletion.

(* ----------------------------------------------------------------- *)
(** ** [extractCitations]: what the citations carry *)

Module CitationContent.
Import Db Index Chat.

Lemma extract_step_keeps (ps : list passage) (cs : list citation) (ds : string) (c : citation) :
  In c cs -> In c (extract_step ps cs ds).
Proof.
  intros H. unfold extract_step.
  destruct (_ && _); [|exact H].
  destruct (nth_error ps _); [|exact H].
  destruct (existsb _ cs); [exact H|]. apply in_or_app. left. exact H.
Qed.

Lemma fold_extract_keeps (ps : list passage) (refs : list string) (cs : list citation)
    (c : citation) :
  In c cs -> In c (fold_left (extract_step ps) refs cs).
Proof.
  revert cs. induction refs as [|r refs IH]; intros cs H; [exact H|].
  simpl. apply IH, extract_step_keeps, H.
Qed.

Lemma fold_extract_from (ps : list passage) (refs : list string) (cs : list citation) :
  Forall (fun c => exists p, In p ps /\ c = citation_of p) cs ->
  Forall (fun c => exists p, In p ps /\ c = citation_of p) (fold_left (extract_step ps) refs cs).
Proof.
  revert cs. induction refs as [|r refs IH]; intros cs H; [exact H|].
  simpl. apply IH. unfold extract_step.
  destruct (_ && _); [|exact H].
  destruct (nth_error ps _) as [p|] eqn:Hp; [|exact H].
  destruct (existsb _ cs); [exact H|].
  apply Forall_app. split; [exact H|].
  constructor; [|constructor]. exists p. split; [eapply nth_error_In; exact Hp | reflexivity].
Qed.

(** Each citation is the metadata of one of the passages given, copied
    as [extractCitations] builds it: the chunk id, the document id, the
    title ([Untitled] when empty), the page ([1] when absent or zero) and
    the similarity. *)
Theorem extractCitations_from_passages (response : string) (relevantDocuments : list passage) :
  Forall (fun c => exists p, In p relevantDocuments /\ c = citation_of p)
         (extractCitations response relevantDocuments).
Proof. apply fold_extract_from. constructor. Qed.

Lemma cite_in_range (response : string) (relevantDocuments : list passage)
    (ds : string) :
  In ds (citation_refs response) ->
  1 <= parse_digits ds 0 <= Z.of_nat (length relevantDocuments) ->
  exists p, nth_error relevantDocuments (Z.to_nat (parse_digits ds 0 - 1)) = Some p /\
    In (ch_id (p_chunk p)) (map chunkId (extractCitations response relevantDocuments)).
Proof.
  intros Hin Hb.
  destruct (nth_error relevantDocuments (Z.to_nat (parse_digits ds 0 - 1))) as [p|] eqn:Hp.
  2: { apply nth_error_None in Hp. lia. }
  exists p. split; [reflexivity|].
  unfold extractCitations. apply in_split in Hin as (pre & post & ->).
  rewrite fold_left_app. simpl.
  generalize (fold_left (extract_step relevantDocuments) pre []). intros cs.
  assert (Hstep : In (ch_id (p_chunk p)) (map chunkId (extract_step relevantDocuments cs ds))).
  { unfold extract_step.
    replace ((0 <=? parse_digits ds 0 - 1) &&
             (parse_digits ds 0 - 1 <? Z.of_nat (length relevantDocuments))) with true
      by (symmetry; apply andb_true_intro; split; [apply Z.leb_le | apply Z.ltb_lt]; lia).
    rewrite Hp.
    destruct (existsb _ cs) eqn:Hex.
    - apply existsb_exists in Hex as (c & Hc & Heq). apply String.eqb_eq in Heq.
      rewrite <- Heq. apply in_map, Hc.
    - rewrite map_app. apply in_or_app. right. left. reflexivity. }
  apply in_map_iff in Hstep as (c & Hc & Hcin).
  rewrite <- Hc. apply in_map, fold_extract_keeps, Hcin.
Qed.

(** Every [[Document n:]] marker of the response whose [n] is between 1
    and the number of passages gets the [n]-th passage's chunk cited. *)
Theorem extractCitations_complete (response : string) (relevantDocuments : list passage)
    (ds : string) :
  In ds (citation_refs response) ->
  1 <= parse_digits ds 0 <= Z.of_nat (length relevantDocuments) ->
  exists p, nth_error relevantDocuments (Z.to_nat (parse_digits ds 0 - 1)) = Some p /\
    In (ch_id (p_chunk p)) (map chunkId (extractCitations response relevantDocuments)).
Proof. exact (cite_in_range response relevantDocuments ds). Qed.

Definition cited_response : string := "Growth was steady [Document 2: Report, Page 1].".

Lemma extractCitations_complete_witness :
  In "2" (citation_refs cited_response) /\
  1 <= parse_digits "2" 0 <= Z.of_nat (length [IndexFacts.p1; IndexFacts.p2]) /\
  exists p, nth_error [IndexFacts.p1; IndexFacts.p2] (Z.to_nat (parse_digits "2" 0 - 1)) = Some p /\
    In (ch_id (p_chunk p)) (map chunkId (extractCitations cited_response [IndexFacts.p1; IndexFacts.p2])).
Proof.
  assert (H1 : In "2" (citation_refs cited_response)) by (vm_compute; left; reflexivity).
  assert (H2 : 1 <= parse_digits "2" 0 <= Z.of_nat (length [IndexFacts.p1; IndexFacts.p2]))
    by (vm_compute; split; discriminate).
  split; [exact H1|]. split; [exact H2|].
  exact (extractCitations_complete _ _ _ H1 H2).
Defined.

End CitationContent.

(* ----------------------------------------------------------------- *)
(** ** [generatePrompt] labels and [extractCitations] *)

Module PromptLabels.
Import Js Db Index Retrieval Chat ChunkerText.

Lemma digit_char (n : Z) :
  is_digit (ascii_of_nat (48 + Z.to_nat (n mod 10))) = true /\
  Z.of_nat (nat_of_ascii (ascii_of_nat (48 + Z.to_nat (n mod 10)))) - 48 = n mod 10.
Proof.
  pose proof (Z.mod_pos_bound n 10 ltac:(lia)) as Hb.
  assert (Hlt : (Z.to_nat (n mod 10) < 10)%nat) by lia.
  unfold is_digit. rewrite nat_ascii_embedding by lia.
  split.
  - apply andb_true_intro; split; apply Nat.leb_le; lia.
  - rewrite Nat2Z.inj_add, Z2Nat.id by lia. lia.
Qed.

Lemma digits_all_digit (fuel : nat) (n : Z) (acc : string) :
  str_forall is_digit acc = true -> str_forall is_digit (digits fuel n acc) = true.
Proof.
  revert n acc. induction fuel as [|f IH]; intros n acc H; [exact H|]. cbn [digits].
  assert (Hd : str_forall is_digit (String (ascii_of_nat (48 + Z.to_nat (n mod 10))) acc) = true).
  { cbn [str_forall]. rewrite (proj1 (digit_char n)). exact H. }
  destruct (n <? 10); [exact Hd | apply IH, Hd].
Qed.

Lemma digits_nonempty (fuel : nat) (n : Z) (c : ascii) (r : string) :
  exists c' r', digits fuel n (String c r) = String c' r'.
Proof.
  revert n c r. induction fuel as [|f IH]; intros n c r; [eexists; eexists; reflexivity|].
  cbn [digits]. destruct (n <? 10); [eexists; eexists; reflexivity | apply IH].
Qed.

(** Reading back the digits [digits] writes gives the number, when the
    fuel covers its decimal length. *)
Lemma parse_digits_digits (fuel : nat) (n : Z) (acc : string) :
  0 <= n -> n < 10 ^ Z.of_nat fuel ->
  parse_digits (digits fuel n acc) 0 = parse_digits acc n.
Proof.
  revert n acc. induction fuel as [|f IH]; intros n acc H0 Hlt.
  - simpl in Hlt. replace n with 0 by lia. reflexivity.
  - cbn [digits]. destruct (digit_char n) as [_ Hv].
    destruct (n <? 10) eqn:E.
    + apply Z.ltb_lt in E. cbn [parse_digits]. rewrite Hv, Z.mod_small by lia.
      reflexivity.
    + apply Z.ltb_ge in E. rewrite IH.
      * cbn [parse_digits]. rewrite Hv. f_equal.
        pose proof (Z.div_mod n 10 ltac:(lia)). lia.
      * apply Z.div_pos; lia.
      * rewrite Nat2Z.inj_succ, Z.pow_succ_r in Hlt by lia.
        apply Z.div_lt_upper_bound; lia.
Qed.

Lemma number_to_string_digits (n : Z) :
  0 <= n ->
  str_forall is_digit (number_to_string n) = true /\
  (exists c r, number_to_string n = String c r) /\
  parse_digits (number_to_string n) 0 = n.
Proof.
  intros H0. unfold number_to_string.
  replace (n <? 0) with false by (symmetry; apply Z.ltb_ge; lia).
  rewrite Z.abs_eq by lia.
  split; [apply digits_all_digit; reflexivity|]. split.
  - cbn [digits]. destruct (n <? 10); [eexists; eexists; reflexivity | apply digits_nonempty].
  - rewrite parse_digits_digits; [reflexivity | lia |].
    destruct (Z.eq_dec n 0) as [->|Hn]; [reflexivity|].
    pose proof (Z.log2_spec n ltac:(lia)) as [_ Hup].
    rewrite Nat2Z.inj_succ, Z2Nat.id by apply Z.log2_nonneg.
    rewrite <- Z.add_1_r.
    eapply Z.lt_le_trans; [exact Hup|].
    apply Z.pow_le_mono_l. split; [lia | lia].
Qed.

Lemma prefix_app (a b : string) : String.prefix a (a ++ b) = true.
Proof.
  induction a as [|c a IH]; [destruct b; reflexivity|]. simpl.
  destruct (ascii_dec c c) as [_|Hn]; [exact IH | congruence].
Qed.

Lemma substring_0_length (s : string) : substring 0 (String.length s) s = s.
Proof. induction s as [|c s IH]; [reflexivity|]. simpl. rewrite IH. reflexivity. Qed.

Lemma substring_app (a b : string) :
  substring (String.length a) (String.length (a ++ b) - String.length a) (a ++ b) = b.
Proof.
  induction a as [|c a IH].
  - simpl. rewrite Nat.sub_0_r. apply substring_0_length.
  - exact IH.
Qed.

Lemma take_digits_app (ds rest : string) :
  str_forall is_digit ds = true ->
  take_digits (ds ++ ":" ++ rest) = (ds, ":" ++ rest).
Proof.
  induction ds as [|c ds IH]; intros H; [reflexivity|].
  cbn [str_forall] in H. apply andb_prop in H as [Hc Hds].
  specialize (IH Hds). cbn [String.append take_digits] in IH |- *.
  rewrite Hc, IH. reflexivity.
Qed.

(** The pattern [/\[Document (\d+):/] matches a label at its start. *)
Lemma match_at_label (ds rest : string) :
  str_forall is_digit ds = true -> (exists c r, ds = String c r) ->
  match_at ("[Document " ++ ds ++ ":" ++ rest) = Some ds.
Proof.
  intros Hd (c & r & Hne). unfold match_at. rewrite prefix_app.
  pose proof (substring_app "[Document " (ds ++ ":" ++ rest)) as Hs.
  change (String.length "[Document ") with 10%nat in Hs. rewrite Hs.
  rewrite take_digits_app by exact Hd. rewrite Hne. reflexivity.
Qed.

Lemma citation_refs_app (pre s ds : string) :
  In ds (citation_refs s) -> In ds (citation_refs (pre ++ s)).
Proof.
  induction pre as [|c pre IH]; intros H; [exact H|].
  cbn [String.append citation_refs]. apply in_or_app. right. apply IH, H.
Qed.

Lemma citation_refs_head (s ds : string) : match_at s = Some ds -> In ds (citation_refs s).
Proof.
  destruct s as [|c r]; [discriminate|]. intros H.
  cbn [citation_refs]. rewrite H. left. reflexivity.
Qed.

Lemma join_in (sep : string) (l : list string) (x : string) :
  In x l -> exists a b, join sep l = a ++ x ++ b.
Proof.
  induction l as [|y l IH]; intros H; [destruct H|].
  destruct H as [<-|H].
  - destruct l as [|z l].
    + exists "", "". simpl. rewrite string_app_nil_r. reflexivity.
    + exists "", (sep ++ join sep (z :: l)). reflexivity.
  - destruct l as [|z l]; [destruct H|].
    destruct (IH H) as (a & b & Hj).
    exists (y ++ sep ++ a), b.
    change (join sep (y :: z :: l)) with (y ++ sep ++ join sep (z :: l)).
    rewrite Hj, !string_app_assoc. reflexivity.
Qed.

Lemma imap_in {A B} (f : nat -> A -> B) (l : list A) (i : nat) (x : A) :
  nth_error l i = Some x -> In (f i x) (imap f l).
Proof.
  revert f i. induction l as [|y l IH]; intros f i H; [destruct i; discriminate|].
  rewrite imap_cons. destruct i as [|i]; simpl in H.
  - injection H as ->. left. reflexivity.
  - right. apply (IH (f ∘ S) i H).
Qed.

(** The label [generatePrompt] puts on the [i]-th excerpt,
    [[Document i+1: ...]], is read back by [extractCitations]: the user
    message holds the formatted excerpt, and a reply that repeats the
    label anywhere gets the [i]-th passage's chunk cited. *)
Theorem prompt_label_round_trip (systemPrompt query : string) (ps : list passage) (i : nat)
    (p : passage) (sys usr : chat_msg) :
  generatePrompt systemPrompt query (RDArray ps) = Some (sys, usr) ->
  nth_error ps i = Some p ->
  (exists a b, content usr = a ++ format_chunk i p ++ b) /\
  (exists t, format_chunk i p
             = "[Document " ++ number_to_string (Z.of_nat i + 1) ++ ":" ++ t) /\
  forall pre post,
    In (ch_id (p_chunk p))
       (map chunkId (extractCitations
                       (pre ++ "[Document " ++ number_to_string (Z.of_nat i + 1) ++ ":" ++ post)
                       ps)).
Proof.
  intros Hg Hp.
  destruct (number_to_string_digits (Z.of_nat i + 1) ltac:(lia)) as (Hd & Hne & Hparse).
  split; [|split].
  - destruct ps as [|p0 ps']; [destruct i; discriminate|].
    assert (Hu : usr = mkChatMsg "user" ("Question: " ++ query ++ nl ++ nl ++ "Document excerpts:"
                                         ++ nl ++ join nl (imap format_chunk (p0 :: ps')))).
    { assert (Hg' : generatePrompt systemPrompt query (RDArray (p0 :: ps'))
                    = Some (mkChatMsg "system" systemPrompt,
                            mkChatMsg "user" ("Question: " ++ query ++ nl ++ nl ++ "Document excerpts:"
                                              ++ nl ++ join nl (imap format_chunk (p0 :: ps')))))
        by reflexivity.
      congruence. }
    subst usr. cbn [content].
    destruct (join_in nl (imap format_chunk (p0 :: ps')) (format_chunk i p)
                (imap_in format_chunk _ i p Hp)) as (a & b & Hj).
    rewrite Hj.
    exists ("Question: " ++ query ++ nl ++ nl ++ "Document excerpts:" ++ nl ++ a), b.
    rewrite !string_app_assoc. reflexivity.
  - eexists. reflexivity.
  - intros pre post.
    destruct (CitationContent.cite_in_range (pre ++ "[Document " ++ number_to_string (Z.of_nat i + 1)
                             ++ ":" ++ post) ps (number_to_string (Z.of_nat i + 1)))
      as (p' & Hp' & Hin).
    + apply citation_refs_app, citation_refs_head, match_at_label; assumption.
    + rewrite Hparse. assert (Hl : (i < length ps)%nat) by (apply nth_error_Some; congruence).
      lia.
    + rewrite Hparse in Hp'. replace (Z.to_nat (Z.of_nat i + 1 - 1)) with i in Hp' by lia.
      rewrite Hp in Hp'. injection Hp' as <-. exact Hin.
Qed.

Definition usr_p1p2 : chat_msg :=
  Eval vm_compute in
    match generatePrompt Fixtures.ragSystemPrompt "growth?" (RDArray [IndexFacts.p1; IndexFacts.p2]) with
    | Some (_, u) => u
    | None => mkChatMsg "user" "growth?"
    end.

Lemma prompt_label_round_trip_witness :
  generatePrompt Fixtures.ragSystemPrompt "growth?" (RDArray [IndexFacts.p1; IndexFacts.p2])
    = Some (mkChatMsg "system" Fixtures.ragSystemPrompt, usr_p1p2) /\
  nth_error [IndexFacts.p1; IndexFacts.p2] 1 = Some IndexFacts.p2 /\
  ((exists a b, content usr_p1p2 = a ++ format_chunk 1 IndexFacts.p2 ++ b) /\
   (exists t, format_chunk 1 IndexFacts.p2
              = "[Document " ++ number_to_string (Z.of_nat 1 + 1) ++ ":" ++ t) /\
   forall pre post,
     In (ch_id (p_chunk IndexFacts.p2))
        (map chunkId (extractCitations
                        (pre ++ "[Document " ++ number_to_string (Z.of_nat 1 + 1) ++ ":" ++ post)
                        [IndexFacts.p1; IndexFacts.p2]))).
Proof.
  assert (H1 : generatePrompt Fixtures.ragSystemPrompt "growth?" (RDArray [IndexFacts.p1; IndexFacts.p2])
               = Some (mkChatMsg "system" Fixtures.ragSystemPrompt, usr_p1p2))
    by (vm_compute; reflexivity).
  assert (H2 : nth_error [IndexFacts.p1; IndexFacts.p2] 1 = Some IndexFacts.p2) by reflexivity.
  split; [exact H1|]. split; [exact H2|].
  exact (prompt_label_round_trip _ _ _ _ _ _ _ H1 H2).
Defined.

End PromptLabels.

(* ----------------------------------------------------------------- *)
(** ** [findRelevantDocuments]: failures and empty scopes *)

Module RetrievalEdges.
Import Embedding Db Index Retrieval.

Lemma generateEmbedding_resolves (openai_embed : string -> api_outcome) (rnd : nat -> float)
    (text : string) :
  exists v, generateEmbedding openai_embed rnd text = Resolved v.
Proof.
  unfold generateEmbedding.
  destruct (openai_embed text) as [e|[[|i l]|]]; eexists; reflexivity.
Qed.

(** Unless its [data[0]] lacks [embedding], the embedding the search
    receives is an array. *)
Lemma generateEmbedding_array (openai_embed : string -> api_outcome) (rnd : nat -> float)
    (text : string) :
  (forall rest, openai_embed text <> ApiResolves (Some (None :: rest))) ->
  exists v, generateEmbedding openai_embed rnd text = Resolved (Some v).
Proof.
  intros H. unfold generateEmbedding.
  destruct (openai_embed text) as [e|[[|[v|] l]|]] eqn:E;
    try (eexists; reflexivity).
  exfalso. exact (H l eq_refl).
Qed.

(** Every search [findRelevantDocuments] runs fails: for a known user and
    a non-empty scope, unless the embedding response has a [data[0]]
    without [embedding], the embedding is an array (the API's, or the
    random fallback when the call fails), which [Chunk.findSimilar] binds
    as a list of numbers; the call rejects with that search error, or
    with a failed lookup. *)
Theorem findRelevantDocuments_errors (cosine_distance : vec -> vec -> Q)
    (openai_embed : string -> api_outcome) (rnd : nat -> float) (d : db)
    (query userId : string) (o : rd_options) (u : user) (so : search_options)
    (r : promise rd_value retrieval_error) :
  find_user d userId = Some u -> resolve_scope d u o = SearchWith so ->
  (forall rest, openai_embed query <> ApiResolves (Some (None :: rest))) ->
  findRelevantDocuments cosine_distance openai_embed rnd d query userId o r ->
  r = Rejected (SearchFailed NotAVector) \/ r = Rejected LookupFailed.
Proof.
  intros Hu Es Hq. unfold findRelevantDocuments. intros [H|H]; [right; exact H|].
  rewrite Hu in H.
  destruct (generateEmbedding_array openai_embed rnd query Hq) as [v Hv]. rewrite Hv, Es in H.
  destruct H as (res & Hf & ->). unfold findSimilar in Hf. subst res. left. reflexivity.
Qed.

Lemma findRelevantDocuments_errors_witness :
  find_user Fixtures.db_tie "u1" = Some Fixtures.u1 /\
  resolve_scope Fixtures.db_tie Fixtures.u1 Fixtures.default_options
    = SearchWith Fixtures.search_opts /\
  (forall rest, Fixtures.embed_ok "growth?" <> ApiResolves (Some (None :: rest))) /\
  findRelevantDocuments Fixtures.dist_equal Fixtures.embed_ok Fixtures.rnd_half
    Fixtures.db_tie "growth?" "u1" Fixtures.default_options (Rejected (SearchFailed NotAVector)) /\
  (@Rejected rd_value retrieval_error (SearchFailed NotAVector) = Rejected (SearchFailed NotAVector) \/
   @Rejected rd_value retrieval_error (SearchFailed NotAVector) = Rejected LookupFailed).
Proof.
  assert (H1 : find_user Fixtures.db_tie "u1" = Some Fixtures.u1) by reflexivity.
  assert (H2 : resolve_scope Fixtures.db_tie Fixtures.u1 Fixtures.default_options
               = SearchWith Fixtures.search_opts) by (vm_compute; reflexivity).
  assert (H3 : forall rest, Fixtures.embed_ok "growth?" <> ApiResolves (Some (None :: rest))).
  { intros rest H. injection H as H. discriminate H. }
  assert (H4 : findRelevantDocuments Fixtures.dist_equal Fixtures.embed_ok Fixtures.rnd_half
                 Fixtures.db_tie "growth?" "u1" Fixtures.default_options
                 (Rejected (SearchFailed NotAVector))).
  { right. simpl. exists (Rejected NotAVector). split; reflexivity. }
  split; [exact H1|]. split; [exact H2|]. split; [exact H3|]. split; [exact H4|].
  exact (findRelevantDocuments_errors _ _ _ _ _ _ _ _ _ _ H1 H2 H3 H4).
Defined.

Lemma doc_ids_where_empty (d : db) (P : document -> bool) :
  (forall doc, In doc (documents d) -> P doc = false) -> doc_ids_where d P = [].
Proof.
  intros H. destruct (doc_ids_where d P) as [|id ids] eqn:E; [reflexivity|].
  assert (Hin : In id (doc_ids_where d P)) by (rewrite E; left; reflexivity).
  apply RetrievalScope.doc_ids_where_spec in Hin as (doc & Hdoc & _ & HP).
  rewrite (H doc Hdoc) in HP. discriminate.
Qed.

(** With a [folderId] holding no document of the caller's organization,
    or with [tags] no document of that organization carries,
    [findRelevantDocuments] resolves to [[]] without searching (unless a
    lookup fails). *)
Theorem findRelevantDocuments_empty_scope (cosine_distance : vec -> vec -> Q)
    (openai_embed : string -> api_outcome) (rnd : nat -> float) (d : db)
    (query userId : string) (o : rd_options) (u : user) (r : promise rd_value retrieval_error) :
  find_user d userId = Some u ->
  (truthy (folderId o) = true /\
     (forall doc, In doc (documents d) -> doc_folderId doc = folderId o ->
                  doc_orgId doc <> user_orgId u)) \/
  (tags o <> [] /\
     (forall doc, In doc (documents d) -> doc_orgId doc = user_orgId u ->
                  overlaps (doc_tags doc) (tags o) = false)) ->
  findRelevantDocuments cosine_distance openai_embed rnd d query userId o r ->
  r = Resolved (RDArray []) \/ r = Rejected LookupFailed.
Proof.
  intros Hu Hcase. unfold findRelevantDocuments. intros [H|H]; [right; exact H|]. left.
  revert H. rewrite Hu.
  destruct (generateEmbedding_resolves openai_embed rnd query) as [qe Hq]. rewrite Hq.
  assert (Hs : resolve_scope d u o = ShortCircuit).
  { unfold resolve_scope. cbv zeta.
    destruct Hcase as [[Hf Hdocs]|[Ht Hdocs]].
    - rewrite Hf. rewrite doc_ids_where_empty; [reflexivity|].
      intros doc Hdoc. destruct (opt_eqb (doc_folderId doc) (folderId o)) eqn:E1; [|reflexivity].
      apply RetrievalScope.opt_eqb_eq in E1. simpl.
      destruct (opt_eqb (doc_orgId doc) (user_orgId u)) eqn:E2; [|reflexivity].
      apply RetrievalScope.opt_eqb_eq in E2. exfalso. exact (Hdocs doc Hdoc E1 E2).
    - destruct (tags o) as [|t ts] eqn:Et; [congruence|].
      assert (Htag : doc_ids_where d (fun doc =>
                       opt_eqb (doc_orgId doc) (user_orgId u)
                       && (if truthy (folderId o) then opt_eqb (doc_folderId doc) (folderId o) else true)
                       && overlaps (doc_tags doc) (t :: ts)) = []).
      { apply doc_ids_where_empty. intros doc Hdoc.
        destruct (opt_eqb (doc_orgId doc) (user_orgId u)) eqn:E2; [|reflexivity].
        apply RetrievalScope.opt_eqb_eq in E2. rewrite (Hdocs doc Hdoc E2).
        apply andb_false_r. }
      rewrite Htag.
      destruct (truthy (folderId o)); [|reflexivity].
      destruct (doc_ids_where d (fun doc => opt_eqb (doc_folderId doc) (folderId o)
                                            && opt_eqb (doc_orgId doc) (user_orgId u)));
        reflexivity. }
  rewrite Hs. exact id.
Qed.

Lemma findRelevantDocuments_empty_scope_witness :
  find_user Fixtures.db_tie "u1" = Some Fixtures.u1 /\
  ((truthy (folderId ChatFlow.folder_options) = true /\
     (forall doc, In doc (documents Fixtures.db_tie) ->
        doc_folderId doc = folderId ChatFlow.folder_options -> doc_orgId doc <> user_orgId Fixtures.u1)) \/
   (tags ChatFlow.folder_options <> [] /\
     (forall doc, In doc (documents Fixtures.db_tie) -> doc_orgId doc = user_orgId Fixtures.u1 ->
        overlaps (doc_tags doc) (tags ChatFlow.folder_options) = false))) /\
  findRelevantDocuments Fixtures.dist_equal Fixtures.embed_ok Fixtures.rnd_half Fixtures.db_tie
    "growth?" "u1" ChatFlow.folder_options (Resolved (RDArray [])) /\
  (@Resolved rd_value retrieval_error (RDArray []) = Resolved (RDArray []) \/
   @Resolved rd_value retrieval_error (RDArray []) = Rejected LookupFailed).
Proof.
  assert (H1 : find_user Fixtures.db_tie "u1" = Some Fixtures.u1) by reflexivity.
  assert (H2 : (truthy (folderId ChatFlow.folder_options) = true /\
     (forall doc, In doc (documents Fixtures.db_tie) ->
        doc_folderId doc = folderId ChatFlow.folder_options -> doc_orgId doc <> user_orgId Fixtures.u1)) \/
   (tags ChatFlow.folder_options <> [] /\
     (forall doc, In doc (documents Fixtures.db_tie) -> doc_orgId doc = user_orgId Fixtures.u1 ->
        overlaps (doc_tags doc) (tags ChatFlow.folder_options) = false))).
  { left. split; [reflexivity|]. simpl. intros doc [<-|[]]. simpl. discriminate. }
  assert (H3 : findRelevantDocuments Fixtures.dist_equal Fixtures.embed_ok Fixtures.rnd_half
                 Fixtures.db_tie "growth?" "u1" ChatFlow.folder_options (Resolved (RDArray [])))
    by (right; vm_compute; reflexivity).
  split; [exact H1|]. split; [exact H2|]. split; [exact H3|].
  exact (findRelevantDocuments_empty_scope _ _ _ _ _ _ _ _ _ H1 H2 H3).
Defined.

End RetrievalEdges.
